(** * XGE Climate Explorer: a shallow embedding of the stores, the marker
    reconciliation and marker elements, the validation modules, the error
    utilities and the helpers, with their properties. *)

From Stdlib Require Import ZArith QArith Bool List String Ascii Lia DecimalString.
From Stdlib Require DecimalNat.
Import ListNotations.
Open Scope string_scope.
Set Warnings "-register-all".

(** ** JavaScript values *)

(** A JavaScript number: a finite value (kept exact, as a rational), NaN,
    or an infinity. *)
Inductive num : Type :=
| NFin (q : Q)
| NNaN
| NInf (positive_side : bool).

(** The runtime values the code inspects. Objects are association lists
    of own properties, in insertion order. *)
Inductive jsval : Type :=
| JUndef
| JNull
| JBool (b : bool)
| JNum (n : num)
| JStr (s : string)
| JArr (elems : list jsval)
| JObj (props : list (string * jsval)).

(** JavaScript truthiness ([!!v]). *)
Definition truthy (v : jsval) : bool :=
  match v with
  | JUndef | JNull => false
  | JBool b => b
  | JNum (NFin q) => negb (Qeq_bool q 0)
  | JNum NNaN => false
  | JNum (NInf _) => true
  | JStr s => negb (String.eqb s "")
  | JArr _ | JObj _ => true
  end.

(** A property read [o.k]: undefined when the property is absent or the
    value has no such own property. *)
Definition get (o : jsval) (k : string) : jsval :=
  match o with
  | JObj ps =>
      match find (fun kv => String.eqb (fst kv) k) ps with
      | Some (_, v) => v
      | None => JUndef
      end
  | _ => JUndef
  end.

(** [k in o]. *)
Definition has_key (o : jsval) (k : string) : bool :=
  match o with
  | JObj ps => existsb (fun kv => String.eqb (fst kv) k) ps
  | _ => false
  end.

Definition is_undefined (v : jsval) : bool :=
  match v with JUndef => true | _ => false end.

(** ** The Project record (src/unnamed/part_011, [interface Project]) *)

Record Project : Type := mkProject {
  id : string;
  title : string;
  description : string;
  impactCategory : string;
  region : string;
  coordinates : jsval;
  url : option string;
  verified : option bool;
  source : option string;
  dateVerified : option string
}.

(** The object a [Project] is at run time: its literal's properties in
    order, the optional ones only when present. *)
Definition opt_prop {A} (k : string) (f : A -> jsval) (o : option A)
  : list (string * jsval) :=
  match o with Some a => [(k, f a)] | None => [] end.

Definition project_to_js (p : Project) : jsval :=
  JObj ([("id", JStr (id p)); ("title", JStr (title p));
         ("description", JStr (description p));
         ("impactCategory", JStr (impactCategory p));
         ("region", JStr (region p)); ("coordinates", coordinates p)]
        ++ opt_prop "url" JStr (url p)
        ++ opt_prop "verified" JBool (verified p)
        ++ opt_prop "source" JStr (source p)
        ++ opt_prop "dateVerified" JStr (dateVerified p)).

(** ** Projects store (src/src/lib/stores/projects.ts) *)

Module ProjectsStore.

Record FilterState : Type := mkFilterState {
  f_region : option string;          (** [string | null] *)
  f_impactCategory : option string   (** [string | null] *)
}.

Record ProjectsState : Type := mkProjectsState {
  allProjects : list Project;
  filters : FilterState
}.

(** [if ($state.filters.x)] on a [string | null]. *)
Definition filter_truthy (f : option string) : bool :=
  match f with Some s => truthy (JStr s) | None => false end.

Definition filter_value (f : option string) : string :=
  match f with Some s => s | None => "" end.

(** The derived [filteredProjects] store. *)
Definition filteredProjects (st : ProjectsState) : list Project :=
  let filtered := allProjects st in
  let filtered :=
    if filter_truthy (f_region (filters st))
    then filter (fun p => String.eqb (region p) (filter_value (f_region (filters st))))
                filtered
    else filtered in
  let filtered :=
    if filter_truthy (f_impactCategory (filters st))
    then filter (fun p => String.eqb (impactCategory p)
                              (filter_value (f_impactCategory (filters st))))
                filtered
    else filtered in
  filtered.

(** The store's update functions, as transformers of its state. *)
Definition updateFilters (fs : FilterState) (st : ProjectsState) : ProjectsState :=
  mkProjectsState (allProjects st) (mkFilterState (f_region fs) (f_impactCategory fs)).

Definition setRegionFilter (r : option string) (st : ProjectsState) : ProjectsState :=
  mkProjectsState (allProjects st) (mkFilterState r (f_impactCategory (filters st))).

Definition setImpactCategoryFilter (c : option string) (st : ProjectsState)
  : ProjectsState :=
  mkProjectsState (allProjects st) (mkFilterState (f_region (filters st)) c).

Definition clearFilters (st : ProjectsState) : ProjectsState :=
  mkProjectsState (allProjects st) (mkFilterState None None).

(** The filter operations of the store's public API. *)
Inductive FilterOp : Type :=
| OpUpdateFilters (fs : FilterState)
| OpSetRegionFilter (r : option string)
| OpSetImpactCategoryFilter (c : option string)
| OpClearFilters.

Definition run_filter_op (op : FilterOp) (st : ProjectsState) : ProjectsState :=
  match op with
  | OpUpdateFilters fs => updateFilters fs st
  | OpSetRegionFilter r => setRegionFilter r st
  | OpSetImpactCategoryFilter c => setImpactCategoryFilter c st
  | OpClearFilters => clearFilters st
  end.

End ProjectsStore.

(** ** Map store (src/unnamed/part_016) *)

Module MapStore.

Section WithMap.

(** The Mapbox map instance type is opaque to the store. *)
Variable MapboxMap : Type.

Record MapState : Type := mkMapState {
  instance : option MapboxMap;
  isLoaded : bool;
  error : option string;
  isInteracting : bool
}.

Definition setError (e : option string) (st : MapState) : MapState :=
  mkMapState (instance st) false e (isInteracting st).

End WithMap.

Arguments instance {MapboxMap}.
Arguments isLoaded {MapboxMap}.
Arguments error {MapboxMap}.
Arguments isInteracting {MapboxMap}.
Arguments setError {MapboxMap}.

End MapStore.

(** ** Error handling (src/src/lib/utils/errors.ts) *)

Module Errors.

Inductive ErrorSeverity : Type := LOW | MEDIUM | HIGH | CRITICAL.

(** The class an [Error] instance was constructed from: the three
    application classes, or [Error] itself or any other subclass of it. *)
Inductive ErrKind : Type :=
| KProjectDataError
| KValidationError
| KMapError
| KOtherError.

Inductive JsError : Type :=
| mkJsError (kind : ErrKind) (message : string) (cause : option JsError).

Definition err_kind (e : JsError) : ErrKind :=
  match e with mkJsError k _ _ => k end.
Definition err_message (e : JsError) : string :=
  match e with mkJsError _ m _ => m end.
Definition err_cause (e : JsError) : option JsError :=
  match e with mkJsError _ _ c => c end.

(** A thrown value: an [Error] instance or any other value. *)
Inductive Thrown : Type :=
| TError (e : JsError)
| TNonError (v : jsval).

Record ErrorInfo : Type := mkErrorInfo {
  ei_message : string;
  ei_severity : ErrorSeverity;
  ei_timestamp : Z;                 (** [new Date()], in ms *)
  ei_context : option string;       (** [{ context }] or undefined *)
  ei_cause : option JsError
}.

Definition createErrorInfo (now : Z) (message : string) (severity : ErrorSeverity)
  (context : option string) (cause : option JsError) : ErrorInfo :=
  mkErrorInfo message severity now context cause.

(** [handleError(error, context)]; [now] is the clock read by [new Date()].
    The [console.error] call only logs. *)
Definition handleError (now : Z) (error : Thrown) (context : option string)
  : ErrorInfo :=
  let '(message, severity, cause) :=
    match error with
    | TError e =>
        match err_kind e with
        | KProjectDataError =>
            ("Project data error: " ++ err_message e, HIGH, err_cause e)
        | KValidationError =>
            ("Validation error: " ++ err_message e, MEDIUM, None)
        | KMapError =>
            ("Map error: " ++ err_message e, HIGH, err_cause e)
        | KOtherError =>
            (err_message e, MEDIUM, Some e)
        end
    | TNonError _ => ("An unknown error occurred", MEDIUM, None)
    end in
  createErrorInfo now message severity
    (match context with
     | Some c => if truthy (JStr c) then Some c else None
     | None => None
     end)
    cause.

End Errors.

(** ** [uniqueBy] (src/unnamed/part_014) *)

Module Helpers.

Section UniqueBy.

Variables (T K : Type).
(** Keys are compared as the [Set] does (SameValueZero on
    [string | number]); any decidable equality on keys. *)
Variable key_eqb : K -> K -> bool.
Hypothesis key_eqb_spec : forall a b, key_eqb a b = true <-> a = b.
Variable keyFn : T -> K.

Definition set_has (seen : list K) (k : K) : bool :=
  existsb (fun k' => key_eqb k' k) seen.

(** [array.filter] with the closure's [seen] set threaded through, in
    insertion order. *)
Fixpoint uniqueBy_go (seen : list K) (array : list T) : list T :=
  match array with
  | [] => []
  | item :: rest =>
      let key := keyFn item in
      if set_has seen key then uniqueBy_go seen rest
      else item :: uniqueBy_go (seen ++ [key]) rest
  end.

Definition uniqueBy (array : list T) : list T := uniqueBy_go [] array.

(** The claim's reading: position [i] is kept exactly when no earlier
    position has the same key. *)
Definition first_occurrences (array : list T) : list T :=
  map fst
    (filter (fun xi => negb (existsb (fun y => key_eqb (keyFn y) (keyFn (fst xi)))
                                     (firstn (snd xi) array)))
            (combine array (seq 0 (List.length array)))).

End UniqueBy.

Arguments uniqueBy {T K}.
Arguments uniqueBy_go {T K}.
Arguments first_occurrences {T K}.

End Helpers.

(** ** Marker reconciliation (src/src/lib/components/ProjectMarkers.svelte) *)

Module Markers.

Definition isNaN (n : num) : bool :=
  match n with NNaN => true | _ => false end.

(** The coordinate guard of [updateMarkers]: an array of length 2 whose
    elements are numbers other than NaN. *)
Definition coords_ok (c : jsval) : bool :=
  match c with
  | JArr [JNum lng; JNum lat] => negb (isNaN lng) && negb (isNaN lat)
  | _ => false
  end.

Inductive MarkerEvent : Type :=
| EvRemoved (projectId : string)   (** [marker.remove()] *)
| EvAdded (projectId : string).    (** [new mapboxgl.Marker(..).addTo(map)] *)

Section WithMapbox.

Variables MapboxMap Marker : Type.

(** [new mapboxgl.Marker(createMarkerElement(project))
      .setLngLat(project.coordinates).addTo(map)]: the marker, or [None]
    when the Mapbox library throws (the error is caught and logged).
    [createMarkerElement] catches its own errors and always returns an
    element. *)
Variable mapbox_add_marker : MapboxMap -> Project -> option Marker.

(** [marker.remove()]: [true] when it returns, [false] when it throws
    (the error is caught and logged, and [markers.delete] is skipped). *)
Variable mapbox_remove : Marker -> bool.

(** The component state: the [markers] Map (insertion-ordered entries)
    and the markers removed from and added to the map, in order. *)
Record MarkerState : Type := mkMarkerState {
  markers : list (string * Marker);
  log : list MarkerEvent
}.

Definition keys (m : list (string * Marker)) : list string := map fst m.

Definition set_has (s : list string) (k : string) : bool :=
  existsb (String.eqb k) s.

Definition map_get (m : list (string * Marker)) (k : string) : option Marker :=
  match find (fun kv => String.eqb (fst kv) k) m with
  | Some (_, v) => Some v
  | None => None
  end.

(** [Map.prototype.set]: overwrite in place, or append a new entry. *)
Definition map_set (m : list (string * Marker)) (k : string) (v : Marker)
  : list (string * Marker) :=
  if set_has (keys m) k
  then map (fun kv => if String.eqb (fst kv) k then (k, v) else kv) m
  else m ++ [(k, v)].

(** [markers.forEach((marker, projectId) => ...)]: for an entry whose id
    is not current, [marker.remove()] and then [markers.delete(projectId)];
    when [remove] throws, the entry stays. Deleting the visited entry does
    not disturb the iteration over the others. *)
Fixpoint remove_phase (current : list string) (m : list (string * Marker))
  (st : MarkerState) : MarkerState :=
  match m with
  | [] => st
  | (pid, mk) :: rest =>
      let st' :=
        if negb (set_has current pid)
        then if mapbox_remove mk
             then mkMarkerState (filter (fun kv => negb (String.eqb (fst kv) pid)) (markers st))
                                (log st ++ [EvRemoved pid])
             else st
        else st in
      remove_phase current rest st'
  end.

(** One iteration of [projects.forEach(...)]. *)
Definition add_one (map0 : MapboxMap) (existing : list string)
  (st : MarkerState) (p : Project) : MarkerState :=
  if set_has existing (id p) then st
  else if negb (coords_ok (coordinates p)) then st
  else match mapbox_add_marker map0 p with
       | Some mk => mkMarkerState (map_set (markers st) (id p) mk)
                                  (log st ++ [EvAdded (id p)])
       | None => st
       end.

Definition updateMarkers (instance : option MapboxMap) (projects : list Project)
  (st : MarkerState) : MarkerState :=
  match instance with
  | None => st
  | Some map0 =>
      let currentProjectIds := map id projects in
      let existingMarkerIds := keys (markers st) in
      let st1 := remove_phase currentProjectIds (markers st) st in
      fold_left (add_one map0 existingMarkerIds) projects st1
  end.

End WithMapbox.

Arguments markers {Marker}.
Arguments log {Marker}.
Arguments mkMarkerState {Marker}.
Arguments keys {Marker}.
Arguments map_get {Marker}.
Arguments map_set {Marker}.
Arguments remove_phase {Marker}.
Arguments add_one {MapboxMap Marker}.
Arguments updateMarkers {MapboxMap Marker}.

End Markers.

(** ** Dates: the parts of ECMAScript's [Date] that [validateISODate] uses *)

Module Dates.

Open Scope Z_scope.

Definition msPerDay : Z := 86400000.

Definition Day (t : Z) : Z := t / msPerDay.
Definition TimeWithinDay (t : Z) : Z := t mod msPerDay.

Definition DaysInYear (y : Z) : Z :=
  if negb (y mod 4 =? 0) then 365
  else if negb (y mod 100 =? 0) then 366
  else if negb (y mod 400 =? 0) then 365
  else 366.

Definition DayFromYear (y : Z) : Z :=
  365 * (y - 1970) + (y - 1969) / 4 - (y - 1901) / 100 + (y - 1601) / 400.

(** YearFromTime: the largest [y] with [DayFromYear y <= Day t], computed
    from an estimate that is off by at most one year. *)
Definition YearFromDay (d : Z) : Z :=
  let y0 := 1970 + (400 * d) / 146097 in
  if d <? DayFromYear y0 then y0 - 1
  else if DayFromYear (y0 + 1) <=? d then y0 + 1
  else y0.

Definition InLeapYear (y : Z) : Z := if DaysInYear y =? 366 then 1 else 0.

(** MonthFromTime, on the day within the year. *)
Definition MonthFromDWY (leap dwy : Z) : Z :=
  if dwy <? 31 then 0
  else if dwy <? 59 + leap then 1
  else if dwy <? 90 + leap then 2
  else if dwy <? 120 + leap then 3
  else if dwy <? 151 + leap then 4
  else if dwy <? 181 + leap then 5
  else if dwy <? 212 + leap then 6
  else if dwy <? 243 + leap then 7
  else if dwy <? 273 + leap then 8
  else if dwy <? 304 + leap then 9
  else if dwy <? 334 + leap then 10
  else 11.

(** DateFromTime, on the day within the year. *)
Definition DateFromDWY (leap dwy : Z) : Z :=
  let m := MonthFromDWY leap dwy in
  if m =? 0 then dwy + 1
  else if m =? 1 then dwy - 30
  else if m =? 2 then dwy - 58 - leap
  else if m =? 3 then dwy - 89 - leap
  else if m =? 4 then dwy - 119 - leap
  else if m =? 5 then dwy - 150 - leap
  else if m =? 6 then dwy - 180 - leap
  else if m =? 7 then dwy - 211 - leap
  else if m =? 8 then dwy - 242 - leap
  else if m =? 9 then dwy - 272 - leap
  else if m =? 10 then dwy - 303 - leap
  else dwy - 333 - leap.

(** The first day of month [mn] (0-based) within a year. *)
Definition month_start (leap mn : Z) : Z :=
  nth (Z.to_nat mn)
    [0; 31; 59 + leap; 90 + leap; 120 + leap; 151 + leap; 181 + leap;
     212 + leap; 243 + leap; 273 + leap; 304 + leap; 334 + leap] 0.

Definition MakeDay (year month date : Z) : Z :=
  let ym := year + month / 12 in
  let mn := month mod 12 in
  DayFromYear ym + month_start (InLeapYear ym) mn + date - 1.

Definition MakeDate (day time : Z) : Z := day * msPerDay + time.

(** A Date's time value; [None] is NaN. *)
Definition TimeClip (t : Z) : option Z :=
  if 8640000000000000 <? Z.abs t then None else Some t.

Definition is_digit (c : ascii) : bool :=
  (48 <=? nat_of_ascii c)%nat && (nat_of_ascii c <=? 57)%nat.

Definition digit_val (c : ascii) : Z := Z.of_nat (nat_of_ascii c) - 48.

Definition char_at (s : string) (n : nat) : ascii :=
  match String.get n s with Some c => c | None => Ascii.zero end.

(** [/^\d{4}-\d{2}-\d{2}$/.test(s)]. *)
Definition iso_format (s : string) : bool :=
  (String.length s =? 10)%nat
  && is_digit (char_at s 0) && is_digit (char_at s 1)
  && is_digit (char_at s 2) && is_digit (char_at s 3)
  && Ascii.eqb (char_at s 4) "-"%char
  && is_digit (char_at s 5) && is_digit (char_at s 6)
  && Ascii.eqb (char_at s 7) "-"%char
  && is_digit (char_at s 8) && is_digit (char_at s 9).

Definition digits_val (s : string) (from len : nat) : Z :=
  fold_left (fun acc i => 10 * acc + digit_val (char_at s i)) (List.seq from len) 0.

(** [new Date(s)] for a date-only string [YYYY-MM-DD], read as UTC; an
    out-of-range month or day gives an invalid Date. Other strings go to
    an implementation-defined parser, which [validateISODate] never
    reaches; they are mapped to an invalid Date here. *)
Definition Date_parse (s : string) : option Z :=
  if negb (iso_format s) then None
  else
    let y := digits_val s 0 4 in
    let m := digits_val s 5 2 in
    let d := digits_val s 8 2 in
    if (1 <=? m) && (m <=? 12) && (1 <=? d) && (d <=? 31)
    then TimeClip (MakeDate (MakeDay y (m - 1) d) 0)
    else None.

Definition digit_char (k : Z) : ascii := ascii_of_nat (48 + Z.to_nat k).

(** The last [n] decimal digits of [x], zero-padded. *)
Fixpoint pad (n : nat) (x : Z) : string :=
  match n with
  | O => EmptyString
  | S n' => pad n' (x / 10) ++ String (digit_char (x mod 10)) EmptyString
  end.

(** [Date.prototype.toISOString] on a valid time value. *)
Definition toISOString (t : Z) : string :=
  let d := Day t in
  let y := YearFromDay d in
  let leap := InLeapYear y in
  let dwy := d - DayFromYear y in
  let mon := MonthFromDWY leap dwy in
  let date := DateFromDWY leap dwy in
  let tw := TimeWithinDay t in
  let ystr :=
    if (0 <=? y) && (y <=? 9999) then pad 4 y
    else (if y <? 0 then "-" else "+") ++ pad 6 (Z.abs y) in
  ystr ++ "-" ++ pad 2 (mon + 1) ++ "-" ++ pad 2 date ++ "T"
  ++ pad 2 (tw / 3600000) ++ ":" ++ pad 2 ((tw / 60000) mod 60) ++ ":"
  ++ pad 2 ((tw / 1000) mod 60) ++ "." ++ pad 3 (tw mod 1000) ++ "Z".

(** [validateISODate(dateString)] (src/unnamed/part_013); [now] is the
    time value of [new Date()]. *)
Definition validateISODate (now : Z) (dateString : string) : bool :=
  if negb (iso_format dateString) then false
  else
    match Date_parse dateString with
    | None => false
    | Some t => (t <=? now) && String.eqb (substring 0 10 (toISOString t)) dateString
    end.

End Dates.

(** ** The platform URL parser ([new URL(input)]), as far as the protocol
    and the host of special schemes go *)

Module Url.

Local Open Scope nat_scope.

Record URLRecord : Type := mkURLRecord {
  protocol : string;     (** [urlObj.protocol]: the scheme and a colon *)
  hostname : list ascii
}.

Definition code (c : ascii) : nat := nat_of_ascii c.

Definition is_alpha (c : ascii) : bool :=
  ((65 <=? code c) && (code c <=? 90)) || ((97 <=? code c) && (code c <=? 122)).
Definition is_alnum (c : ascii) : bool := is_alpha c || Dates.is_digit c.

Definition to_lower (c : ascii) : ascii :=
  if (65 <=? code c) && (code c <=? 90) then ascii_of_nat (code c + 32) else c.

Definition c0_or_space (c : ascii) : bool := code c <=? 32.
Definition tab_or_newline (c : ascii) : bool :=
  (code c =? 9) || (code c =? 10) || (code c =? 13).

Fixpoint drop_while (p : ascii -> bool) (l : list ascii) : list ascii :=
  match l with
  | [] => []
  | c :: r => if p c then drop_while p r else l
  end.

(** Leading and trailing C0 controls and spaces stripped, tabs and
    newlines removed. *)
Definition preprocess (s : string) : list ascii :=
  let l := list_ascii_of_string s in
  let l := rev (drop_while c0_or_space (rev (drop_while c0_or_space l))) in
  filter (fun c => negb (tab_or_newline c)) l.

(** The scheme state: scheme characters up to the first [:]. *)
Fixpoint scheme_state (acc : list ascii) (l : list ascii)
  : option (list ascii * list ascii) :=
  match l with
  | [] => None
  | c :: r =>
      if is_alnum c || Ascii.eqb c "+" || Ascii.eqb c "-" || Ascii.eqb c "."
      then scheme_state (acc ++ [to_lower c])%list r
      else if Ascii.eqb c ":" then Some (acc, r)
      else None
  end.

Definition is_special (scheme : string) : bool :=
  existsb (String.eqb scheme) ["ftp"; "file"; "http"; "https"; "ws"; "wss"].

Definition slash (c : ascii) : bool := Ascii.eqb c "/" || Ascii.eqb c "\".

Fixpoint take_until (p : ascii -> bool) (l : list ascii) : list ascii :=
  match l with
  | [] => []
  | c :: r => if p c then [] else c :: take_until p r
  end.

Definition after_last_at (l : list ascii) : list ascii :=
  fold_left (fun (acc : list ascii) c => if Ascii.eqb c "@" then [] else (acc ++ [c])%list) l [].

Definition forbidden_domain (c : ascii) : bool :=
  (code c <=? 32) || (code c =? 127)
  || existsb (fun d => Ascii.eqb c d)
       ["#"; "%"; "/"; ":"; "<"; ">"; "?"; "@"; "["; "\"; "]"; "^"; "|"]%char.

Definition port_ok (p : list ascii) : bool :=
  forallb Dates.is_digit p
  && Z.leb (fold_left (fun acc c => 10 * acc + Dates.digit_val c) p 0)%Z 65535.

(** The authority of a special, non-file URL: host (and optional port)
    after any userinfo, up to the first path, query or fragment
    delimiter. IPv6 literals, percent-decoding of the host, IDNA mapping
    and IPv4 number checks are outside this fragment. *)
Definition special_authority (rest : list ascii) : option (list ascii) :=
  let auth := take_until (fun c => slash c || Ascii.eqb c "?" || Ascii.eqb c "#")
                         (drop_while slash rest) in
  let hostport := after_last_at auth in
  let host := take_until (fun c => Ascii.eqb c ":") hostport in
  let port := match drop_while (fun c => negb (Ascii.eqb c ":")) hostport with
              | _ :: p => p | [] => [] end in
  if (existsb (fun c => Ascii.eqb c "@") auth && (List.length hostport =? 0))
     || (List.length host =? 0) || existsb forbidden_domain host
     || negb (port_ok port)
  then None
  else Some (map to_lower host).

(** [new URL(input)] with no base: [None] when the constructor throws. *)
Definition URL_parse (input : string) : option URLRecord :=
  match preprocess input with
  | [] => None
  | c :: r =>
      if negb (is_alpha c) then None
      else
        match scheme_state [to_lower c] r with
        | None => None
        | Some (sch, rest) =>
            let scheme := string_of_list_ascii sch in
            let proto := scheme ++ ":" in
            if is_special scheme && negb (String.eqb scheme "file")
            then match special_authority rest with
                 | Some h => Some (mkURLRecord proto h)
                 | None => None
                 end
            else Some (mkURLRecord proto [])
        end
  end.

End Url.

(** ** Validation (src/unnamed/part_013) *)

Module Validation.

Open Scope Z_scope.

Definition VALID_IMPACT_CATEGORIES : list string :=
  ["renewable-energy"; "conservation"; "sustainable-agriculture"; "waste-management"].

Definition VALID_REGIONS : list string := ["north-america"].

Record ValidationError : Type := mkValidationError {
  field : string;
  message : string;
  value : option jsval      (** [value?] *)
}.

Record ValidationResult : Type := mkValidationResult {
  isValid : bool;
  errors : list ValidationError
}.

(** [validateProjectUrl(url)]: [try { const urlObj = new URL(url);
    return urlObj.protocol === 'https:'; } catch { return false; }], for
    a URL constructor [new_URL] that gives the parsed URL record, or
    [None] when it throws (the bare [catch] catches any thrown value). *)
Section ProjectUrl.
Variable new_URL : string -> option Url.URLRecord.

Definition validateProjectUrl_with (url : string) : bool :=
  match new_URL url with
  | Some urlObj => String.eqb (Url.protocol urlObj) "https:"
  | None => false
  end.

End ProjectUrl.

(** [validateProjectUrl] over the parser fragment [Url.URL_parse]. *)
Definition validateProjectUrl (u : string) : bool :=
  validateProjectUrl_with Url.URL_parse u.

Definition is_string (v : jsval) : bool :=
  match v with JStr _ => true | _ => false end.
Definition is_number (v : jsval) : bool :=
  match v with JNum _ => true | _ => false end.
Definition is_boolean (v : jsval) : bool :=
  match v with JBool _ => true | _ => false end.
(** [typeof v === 'object'] *)
Definition is_object (v : jsval) : bool :=
  match v with JNull | JArr _ | JObj _ => true | _ => false end.

(** [String.prototype.trim] whitespace (the Latin-1 range). *)
Definition js_space (c : ascii) : bool :=
  existsb (Nat.eqb (nat_of_ascii c)) [9; 10; 11; 12; 13; 32; 160]%nat.

Definition trim (s : string) : string :=
  let l := list_ascii_of_string s in
  string_of_list_ascii (rev (Url.drop_while js_space (rev (Url.drop_while js_space l)))).

(** [!v || typeof v !== 'string' || v.trim().length === 0] *)
Definition blank_string (v : jsval) : bool :=
  match v with
  | JStr s => negb (truthy v) || (String.length (trim s) =? 0)%nat
  | _ => true
  end.

(** [typeof v !== 'string' || v.trim().length === 0] *)
Definition not_trimmed_string (v : jsval) : bool :=
  match v with
  | JStr s => (String.length (trim s) =? 0)%nat
  | _ => true
  end.

(** [VALID.includes(v)] (SameValueZero). *)
Definition includes (l : list string) (v : jsval) : bool :=
  match v with JStr s => existsb (String.eqb s) l | _ => false end.

(** [n < q] and [n > q] on a JavaScript number. *)
Definition num_lt (n : num) (q : Q) : bool :=
  match n with NFin a => negb (Qle_bool q a) | NNaN => false | NInf pos => negb pos end.
Definition num_gt (n : num) (q : Q) : bool :=
  match n with NFin a => negb (Qle_bool a q) | NNaN => false | NInf pos => pos end.

Definition coord_out (v : jsval) (lo hi : Q) : bool :=
  match v with JNum n => num_lt n lo || num_gt n hi | _ => true end.

Definition when (b : bool) (e : ValidationError) : list ValidationError :=
  if b then [e] else [].

Definition err (f m : string) (v : jsval) : ValidationError :=
  mkValidationError f m (Some v).

Definition coordinate_errors (c : jsval) : list ValidationError :=
  match c with
  | JArr l =>
      if negb (List.length l =? 2)%nat
      then [err "coordinates"
                "Coordinates must be an array of exactly 2 numbers [longitude, latitude]" c]
      else
        let lng := nth 0 l JUndef in
        let lat := nth 1 l JUndef in
        (when (coord_out lng (-180) 180)
             (err "coordinates[0]" "Longitude must be a number between -180 and 180" lng)
        ++ when (coord_out lat (-90) 90)
             (err "coordinates[1]" "Latitude must be a number between -90 and 90" lat))%list
  | _ => [err "coordinates" "Coordinates must be an array" c]
  end.

Definition verified_errors (now : Z) (proj : jsval) : list ValidationError :=
  let v := get proj "verified" in
  if is_undefined v then []
  else if negb (is_boolean v) then [err "verified" "Verified must be a boolean" v]
  else if match v with JBool true => true | _ => false end then
    (when (negb (truthy (get proj "url")))
         (mkValidationError "url" "URL is required when verified is true" None)
    ++ when (blank_string (get proj "source"))
         (err "source" "Source is required when verified is true" (get proj "source"))
    ++ when (negb (truthy (get proj "dateVerified"))
             || match get proj "dateVerified" with
                | JStr s => negb (Dates.validateISODate now s)
                | _ => true
                end)
         (err "dateVerified"
              "Valid ISO date (YYYY-MM-DD) is required when verified is true"
              (get proj "dateVerified")))%list
  else [].

(** [validateProject(project)]. *)
Definition validateProject (now : Z) (project : jsval) : ValidationResult :=
  if negb (truthy project) || negb (is_object project) then
    mkValidationResult false [err "project" "Project must be an object" project]
  else
    let proj := project in
    let errors :=
     (when (blank_string (get proj "id"))
           (err "id" "Project id must be a non-empty string" (get proj "id"))
      ++ when (blank_string (get proj "title"))
           (err "title" "Project title must be a non-empty string" (get proj "title"))
      ++ when (blank_string (get proj "description"))
           (err "description" "Project description must be a non-empty string"
                (get proj "description"))
      ++ when (negb (truthy (get proj "impactCategory"))
               || negb (includes VALID_IMPACT_CATEGORIES (get proj "impactCategory")))
           (err "impactCategory"
                ("Impact category must be one of: "
                 ++ String.concat ", " VALID_IMPACT_CATEGORIES)%string
                (get proj "impactCategory"))
      ++ when (negb (truthy (get proj "region"))
               || negb (includes VALID_REGIONS (get proj "region")))
           (err "region" ("Region must be one of: " ++ String.concat ", " VALID_REGIONS)%string
                (get proj "region"))
      ++ coordinate_errors (get proj "coordinates")
      ++ (if is_undefined (get proj "url") then []
          else when (match get proj "url" with
                     | JStr s => negb (validateProjectUrl s)
                     | _ => true
                     end)
                 (err "url" "URL must be a valid HTTPS URL" (get proj "url")))
      ++ verified_errors now proj
      ++ when (negb (is_undefined (get proj "source")) && not_trimmed_string (get proj "source"))
           (err "source" "Source must be a non-empty string when provided"
                (get proj "source"))
      ++ when (negb (is_undefined (get proj "dateVerified"))
               && match get proj "dateVerified" with
                  | JStr s => negb (Dates.validateISODate now s)
                  | _ => true
                  end)
           (err "dateVerified"
                "Date verified must be a valid ISO date (YYYY-MM-DD) when provided"
                (get proj "dateVerified")))%list in
    mkValidationResult (List.length errors =? 0)%nat errors.

Definition nat_to_string (n : nat) : string :=
  NilEmpty.string_of_uint (Nat.to_uint n).

(** The [...error, field, message] copy made for the project at [index]. *)
Definition reindex (index : nat) (e : ValidationError) : ValidationError :=
  mkValidationError ("projects[" ++ nat_to_string index ++ "]." ++ field e)
                    ("Project " ++ nat_to_string index ++ ": " ++ message e)
                    (value e).

Fixpoint per_project_errors (now : Z) (index : nat) (projects : list jsval)
  : list ValidationError :=
  match projects with
  | [] => []
  | project :: rest =>
      let result := validateProject now project in
      ((if negb (isValid result) then map (reindex index) (errors result) else [])
      ++ per_project_errors now (S index) rest)%list
  end.

(** The duplicate-id pass, with the [ids] set threaded through. *)
Fixpoint duplicate_errors (ids : list string) (index : nat) (projects : list jsval)
  : list ValidationError :=
  match projects with
  | [] => []
  | project :: rest =>
      if truthy project && is_object project && has_key project "id" then
        match get project "id" with
        | JStr i =>
            if existsb (String.eqb i) ids
            then mkValidationError ("projects[" ++ nat_to_string index ++ "].id")
                                   ("Duplicate project ID: " ++ i) (Some (JStr i))
                 :: duplicate_errors ids (S index) rest
            else duplicate_errors (ids ++ [i])%list (S index) rest
        | _ => duplicate_errors ids (S index) rest
        end
      else duplicate_errors ids (S index) rest
  end.

(** [validateProjects(projects)]; the argument is an array by its type. *)
Definition validateProjects (now : Z) (projects : list jsval) : ValidationResult :=
  let errors :=
    ((if (List.length projects =? 0)%nat
      then [mkValidationError "projects" "Projects array cannot be empty" None]
      else [])
     ++ per_project_errors now 0 projects
     ++ duplicate_errors [] 0 projects)%list in
  mkValidationResult (List.length errors =? 0)%nat errors.

End Validation.

(** ** The static dataset (src/src/lib/data/projects.ts) *)

Module Data.

Definition coords (lng lat : Q) : jsval := JArr [JNum (NFin lng); JNum (NFin lat)].

Definition projects : list Project := [
  mkProject "two-billion-trees" "Two Billion Trees Program"
    "The Government of Canada's commitment to plant two billion trees by 2031 to help fight climate change, create jobs, and support biodiversity. This national reforestation initiative works with provinces, territories, Indigenous communities, and private landowners to restore forests across the country."
    "conservation" "north-america" (coords (-1063468 # 10000) (529399 # 10000))
    (Some "https://www.canada.ca/en/campaign/2-billion-trees.html") (Some true)
    (Some "Government of Canada") (Some "2025-08-13");
  mkProject "travers-solar" "Travers Solar Project"
    "Canada's largest solar project located near Vulcan, Alberta. This 465 MW solar facility generates clean electricity for approximately 150,000 homes and represents a significant milestone in Alberta's renewable energy transition, supporting the province's net-zero goals."
    "renewable-energy" "north-america" (coords (-113335 # 1000) (50506 # 1000))
    (Some "https://www.greengatepower.com/travers-solar") (Some true)
    (Some "Greengate Power Corporation") (Some "2025-08-13");
  mkProject "toronto-urban-agriculture" "Toronto Urban Agriculture Strategy"
    "The City of Toronto's comprehensive strategy to increase local food production, improve food security, and reduce environmental impacts through urban farming initiatives. This includes community gardens, rooftop farming, and innovative growing technologies across Canada's largest city."
    "sustainable-agriculture" "north-america" (coords (-793832 # 10000) (436532 # 10000))
    (Some "https://www.toronto.ca/city-government/planning-development/planning-studies-initiatives/urban-agriculture/")
    (Some true) (Some "City of Toronto") (Some "2025-08-13");
  mkProject "vancouver-zero-waste" "Vancouver Zero Waste 2040"
    "Vancouver's ambitious plan to become a zero waste city by 2040, focusing on waste reduction, reuse, and recycling programs. This comprehensive initiative includes circular economy principles, extended producer responsibility, and community engagement to eliminate waste sent to landfills."
    "waste-management" "north-america" (coords (-1231207 # 10000) (492827 # 10000))
    (Some "https://vancouver.ca/green-vancouver/zero-waste-vancouver.aspx") (Some true)
    (Some "City of Vancouver") (Some "2025-08-13");
  mkProject "everwind-green-hydrogen" "EverWind Green Hydrogen Project"
    "Atlantic Canada's first large-scale green hydrogen and ammonia production facility in Nova Scotia. This project harnesses wind energy to produce clean hydrogen for export and domestic use, positioning Canada as a leader in the global green hydrogen economy."
    "renewable-energy" "north-america" (coords (-635859 # 10000) (446820 # 10000))
    (Some "https://everwindfuels.com/") (Some true)
    (Some "EverWind Fuels") (Some "2025-08-13");
  mkProject "ducks-unlimited-prairie-wetlands" "Prairie Wetland Conservation (Ducks Unlimited)"
    "Ducks Unlimited Canada's ongoing wetland conservation efforts across the Prairie Pothole Region of Manitoba, Saskatchewan, and Alberta. This critical program protects and restores wetland habitats that support waterfowl, improve water quality, and provide natural climate solutions through carbon storage."
    "conservation" "north-america" (coords (-971384 # 10000) (498951 # 10000))
    (Some "https://www.ducks.ca/places/manitoba/") (Some true)
    (Some "Ducks Unlimited Canada") (Some "2025-08-13")
].

End Data.

(** ** More of the validation module (src/unnamed/part_013) *)

Module ValidationExtras.
Import Validation.

(** [isValidProject(obj)]. *)
Definition isValidProject (now : Z) (obj : jsval) : bool :=
  isValid (validateProject now obj).

(** [n >= q] and [n <= q] on a JavaScript number. *)
Definition num_ge (n : num) (q : Q) : bool :=
  match n with NFin a => Qle_bool q a | NNaN => false | NInf pos => pos end.
Definition num_le (n : num) (q : Q) : bool :=
  match n with NFin a => Qle_bool a q | NNaN => false | NInf pos => negb pos end.

(** [CANADA_BOUNDS], as the exact values of its double literals. *)
Definition minLng : Q := Qmake (-141) 1.
Definition maxLng : Q := Qmake (-7402791887490253) 140737488355328.  (* -52.6 *)
Definition minLat : Q := Qmake 2934376632208589 70368744177664.      (* 41.7 *)
Definition maxLat : Q := Qmake 2923821320581939 35184372088832.      (* 83.1 *)

(** [validateCanadianCoordinates([longitude, latitude])]. *)
Definition validateCanadianCoordinates (longitude latitude : num) : bool :=
  num_ge longitude minLng && num_le longitude maxLng
  && num_ge latitude minLat && num_le latitude maxLat.

(** [validateProjectForDisplay(project)]. The destructuring of
    [project.coordinates] is reached only after [isValidProject], which
    makes it an array of two numbers; the last branch is never taken. *)
Definition validateProjectForDisplay (now : Z) (project : Project) : bool :=
  if negb (isValidProject now (project_to_js project)) then false
  else (5 <=? String.length (title project))%nat
       && (20 <=? String.length (description project))%nat
       && match coordinates project with
          | JArr [JNum longitude; JNum latitude] =>
              validateCanadianCoordinates longitude latitude
          | _ => false
          end.

(** The leading run of decimal digits of a string, and the rest. *)
Fixpoint take_digits (s : string) : string * string :=
  match s with
  | String c r =>
      if Dates.is_digit c then let (ds, r') := take_digits r in (String c ds, r')
      else (EmptyString, s)
  | EmptyString => (EmptyString, EmptyString)
  end.

(** [.replace(/^projects\[\d+\]\./, '')] *)
Definition strip_projects_prefix (s : string) : string :=
  if String.prefix "projects[" s then
    let (ds, r) := take_digits (substring 9 (String.length s - 9) s) in
    if (0 <? String.length ds)%nat && String.prefix "]." r
    then substring 2 (String.length r - 2) r
    else s
  else s.

(** [.replace(/\[\d+\]/, '')]: the leftmost match only. *)
Fixpoint remove_first_index (s : string) : string :=
  match s with
  | EmptyString => EmptyString
  | String c r =>
      let keep := String c (remove_first_index r) in
      if Ascii.eqb c "["%char then
        let (ds, r') := take_digits r in
        match r' with
        | String c' r'' =>
            if (0 <? String.length ds)%nat && Ascii.eqb c' "]"%char then r'' else keep
        | EmptyString => keep
        end
      else keep
  end.

(** [.replace(/([A-Z])/g, ' $1')] *)
Fixpoint space_before_upper (s : string) : string :=
  match s with
  | EmptyString => EmptyString
  | String c r =>
      if (65 <=? nat_of_ascii c)%nat && (nat_of_ascii c <=? 90)%nat
      then String " "%char (String c (space_before_upper r))
      else String c (space_before_upper r)
  end.

(** [String.prototype.toLowerCase] on a Latin-1 code unit. *)
Definition lower_char (c : ascii) : ascii :=
  let n := nat_of_ascii c in
  if (((65 <=? n) && (n <=? 90)) || ((192 <=? n) && (n <=? 222) && negb (n =? 215)))%nat
  then ascii_of_nat (n + 32)%nat else c.

Fixpoint toLowerCase (s : string) : string :=
  match s with
  | EmptyString => EmptyString
  | String c r => String (lower_char c) (toLowerCase r)
  end.

(** [String.prototype.toUpperCase] on one Latin-1 code unit; [None] where
    the result leaves the Latin-1 range (U+00B5 and U+00FF). *)
Definition upper_char (c : ascii) : option string :=
  let n := nat_of_ascii c in
  if (((97 <=? n) && (n <=? 122)) || ((224 <=? n) && (n <=? 254) && negb (n =? 247)))%nat
  then Some (String (ascii_of_nat (n - 32)%nat) EmptyString)
  else if (n =? 223)%nat then Some "SS"
  else if ((n =? 181) || (n =? 255))%nat then None
  else Some (String c EmptyString).

(** [.replace(/^./, str => str.toUpperCase())]: [.] matches any code unit
    but a line terminator. *)
Definition upper_first (s : string) : option string :=
  match s with
  | String c r =>
      if (nat_of_ascii c =? 10)%nat || (nat_of_ascii c =? 13)%nat then Some s
      else option_map (fun u => u ++ r) (upper_char c)
  | EmptyString => Some EmptyString
  end.

Definition fieldDisplayName (field : string) : option string :=
  upper_first (toLowerCase (space_before_upper (remove_first_index (strip_projects_prefix field)))).

(** [extractUserFriendlyErrors(validationResult)]. *)
Definition extractUserFriendlyErrors (validationResult : ValidationResult)
  : option (list string) :=
  fold_right (fun e acc =>
                match fieldDisplayName (field e), acc with
                | Some n, Some l => Some ((n ++ ": " ++ message e) :: l)
                | _, _ => None
                end)
             (Some []) (errors validationResult).

(** The options of [validateProjectsOptimized]: absent members take their
    defaults ([Infinity] and [false]). *)
Record OptimizedOptions : Type := mkOptimizedOptions {
  maxErrors_opt : option num;
  skipExpensiveChecks_opt : option bool
}.

(** [k < maxErrors] for an array length [k]. *)
Definition len_lt (k : nat) (m : num) : bool :=
  match m with
  | NFin q => negb (Qle_bool q (inject_Z (Z.of_nat k)))
  | NNaN => false
  | NInf pos => pos
  end.

(** The inner [result.errors.forEach], pushing while under the limit. *)
Definition push_limited (maxErrors : num) (l : list ValidationError)
  (errs : list ValidationError) : list ValidationError :=
  fold_left (fun acc e => if len_lt (List.length acc) maxErrors then (acc ++ [e])%list else acc)
            l errs.

(** The [for] loop, from [index] on, with the errors and the count so far. *)
Fixpoint optimized_loop (now : Z) (maxErrors : num) (skip : bool) (index : nat)
  (projects : list jsval) (errs : list ValidationError) (validatedCount : nat)
  : list ValidationError * nat :=
  match projects with
  | [] => (errs, validatedCount)
  | project :: rest =>
      if negb (len_lt (List.length errs) maxErrors) then (errs, validatedCount)
      else
        let validatedCount := S validatedCount in
        if negb (truthy project) || negb (is_object project) then
          optimized_loop now maxErrors skip (S index) rest
            (errs ++ [err ("projects[" ++ nat_to_string index ++ "]")
                          "Project must be an object" project])%list
            validatedCount
        else if negb skip then
          let result := validateProject now project in
          let errs := if negb (isValid result)
                      then push_limited maxErrors (map (reindex index) (errors result)) errs
                      else errs in
          optimized_loop now maxErrors skip (S index) rest errs validatedCount
        else optimized_loop now maxErrors skip (S index) rest errs validatedCount
  end.

(** [validateProjectsOptimized(projects, options)], with the result and
    [validatedCount]; the argument is an array by its type. *)
Definition validateProjectsOptimized (now : Z) (projects : list jsval)
  (options : OptimizedOptions) : ValidationResult * nat :=
  let maxErrors := match maxErrors_opt options with Some m => m | None => NInf true end in
  let skipExpensiveChecks := match skipExpensiveChecks_opt options with
                             | Some b => b | None => false end in
  let '(errs, validatedCount) :=
    optimized_loop now maxErrors skipExpensiveChecks 0 projects [] 0 in
  (mkValidationResult (List.length errs =? 0)%nat errs, validatedCount).

(** [Array.prototype.join(sep)] on strings. *)
Fixpoint js_join (sep : string) (l : list string) : string :=
  match l with
  | [] => EmptyString
  | [s] => s
  | s :: rest => s ++ sep ++ js_join sep rest
  end.

(** The outcome of a call: a value, or a thrown [Error]. *)
Inductive Outcome (A : Type) : Type :=
| Returns (a : A)
| Throws (e : Errors.JsError).
Arguments Returns {A}.
Arguments Throws {A}.

Definition new_Error (m : string) : Errors.JsError :=
  Errors.mkJsError Errors.KOtherError m None.

(** [safeParseProjects(data)]: the [try] block, then the [catch], which
    only sees [Error] instances and rethrows with the prefix. *)
Definition safeParseProjects_try (now : Z) (data : jsval) : Outcome (list jsval) :=
  match data with
  | JArr ps =>
      let validationResult := validateProjects now ps in
      if negb (isValid validationResult) then
        let errorMessages :=
          js_join "; " (map (fun e => field e ++ ": " ++ message e) (errors validationResult)) in
        Throws (new_Error ("Project validation failed: " ++ errorMessages))
      else Returns ps
  | _ => Throws (new_Error "Data is not an array")
  end.

Definition safeParseProjects (now : Z) (data : jsval) : Outcome (list jsval) :=
  match safeParseProjects_try now data with
  | Returns ps => Returns ps
  | Throws e => Throws (new_Error ("Invalid project data: " ++ Errors.err_message e))
  end.

End ValidationExtras.


(** ** The earlier validation module (src/unnamed/part_014, lines 1-242) *)

Module LegacyValidation.
Import Validation.

(** Its [validateProject(project)]: the same checks up to the coordinates,
    and none on [url], [verified], [source] or [dateVerified]. *)
Definition validateProject (project : jsval) : ValidationResult :=
  if negb (truthy project) || negb (is_object project) then
    mkValidationResult false [err "project" "Project must be an object" project]
  else
    let proj := project in
    let errors :=
     (when (blank_string (get proj "id"))
           (err "id" "Project id must be a non-empty string" (get proj "id"))
      ++ when (blank_string (get proj "title"))
           (err "title" "Project title must be a non-empty string" (get proj "title"))
      ++ when (blank_string (get proj "description"))
           (err "description" "Project description must be a non-empty string"
                (get proj "description"))
      ++ when (negb (truthy (get proj "impactCategory"))
               || negb (includes VALID_IMPACT_CATEGORIES (get proj "impactCategory")))
           (err "impactCategory"
                ("Impact category must be one of: "
                 ++ String.concat ", " VALID_IMPACT_CATEGORIES)%string
                (get proj "impactCategory"))
      ++ when (negb (truthy (get proj "region"))
               || negb (includes VALID_REGIONS (get proj "region")))
           (err "region" ("Region must be one of: " ++ String.concat ", " VALID_REGIONS)%string
                (get proj "region"))
      ++ coordinate_errors (get proj "coordinates"))%list in
    mkValidationResult (List.length errors =? 0)%nat errors.

End LegacyValidation.

(** ** More helpers (src/unnamed/part_014) *)

Module HelpersExtras.
Open Scope Z_scope.

(** [s.slice(start, end)] for integer arguments. *)
Definition js_slice (s : string) (start end_ : Z) : string :=
  let len := Z.of_nat (String.length s) in
  let from := if start <? 0 then Z.max (len + start) 0 else Z.min start len in
  let to := if end_ <? 0 then Z.max (len + end_) 0 else Z.min end_ len in
  substring (Z.to_nat from) (Z.to_nat (Z.max (to - from) 0)) s.

(** [s.lastIndexOf(' ')]. *)
Fixpoint last_space_from (s : string) (i acc : Z) : Z :=
  match s with
  | EmptyString => acc
  | String c r => last_space_from r (i + 1) (if Ascii.eqb c " "%char then i else acc)
  end.

Definition lastIndexOf_space (s : string) : Z := last_space_from s 0 (-1).

(** [truncateText(text, maxLength)], for an integer [maxLength]. *)
Definition truncateText (text : string) (maxLength : Z) : string :=
  if Z.of_nat (String.length text) <=? maxLength then text
  else
    let truncated := js_slice text 0 maxLength in
    let lastSpace := lastIndexOf_space truncated in
    if maxLength - 10 <? lastSpace then js_slice truncated 0 lastSpace ++ "..."
    else truncated ++ "...".

(** [s.split(sep)] for a one-character separator. *)
Fixpoint split_char (sep : ascii) (s : string) : list string :=
  match s with
  | EmptyString => [EmptyString]
  | String c r =>
      if Ascii.eqb c sep then EmptyString :: split_char sep r
      else match split_char sep r with
           | w :: ws => String c w :: ws
           | [] => [String c EmptyString]
           end
  end.

(** [word.charAt(0).toUpperCase() + word.slice(1)]; [None] where the
    upper case of the first code unit leaves the Latin-1 range. *)
Definition capitalize (word : string) : option string :=
  match word with
  | EmptyString => Some EmptyString
  | String c r => option_map (fun u => u ++ r) (ValidationExtras.upper_char c)
  end.

Fixpoint all_some {A} (l : list (option A)) : option (list A) :=
  match l with
  | [] => Some []
  | Some a :: rest => option_map (cons a) (all_some rest)
  | None :: _ => None
  end.

(** [formatImpactCategory(category)]. *)
Definition formatImpactCategory (category : string) : option string :=
  option_map (ValidationExtras.js_join " ")
             (all_some (map capitalize (split_char "-"%char category))).

(** The timeout [setTimeout(handler, delay)] waits for an integer
    [delay] (HTML timer initialization steps, for a call made outside
    nested timers): the WebIDL [long] conversion wraps the delay modulo
    2^32 into [-2^31, 2^31), and a negative timeout becomes 0. *)
Definition timer_timeout (delay : Z) : Z :=
  Z.max 0 ((delay + 2 ^ 31) mod 2 ^ 32 - 2 ^ 31).

(** [debounce(func, delay)]: the wrapper is called at the given times
    (in order) with the given arguments; the result is the list of
    [func] invocations with their times. Each call clears the pending
    timer and sets a new one at [t + timer_timeout delay]. A timer due by
    the time of the next call has run before it. *)
Section Debounce.
Variable A : Type.

Fixpoint debounce_run (delay : Z) (pending : option (Z * A)) (calls : list (Z * A))
  : list (Z * A) :=
  match calls with
  | [] => match pending with Some p => [p] | None => [] end
  | (t, a) :: rest =>
      let fired := match pending with
                   | Some (d, a') => if d <=? t then [(d, a')] else []
                   | None => []
                   end in
      (fired ++ debounce_run delay (Some (t + timer_timeout delay, a)) rest)%list
  end.

End Debounce.
Arguments debounce_run {A}.

End HelpersExtras.

(** ** The filters store (src/src/lib/utils/env.ts, [createFiltersStore]) *)

Module FiltersStore.
Import ProjectsStore.
Open Scope Z_scope.

Definition initialState : FilterState := mkFilterState None None.

(** The store's value and the pending timer of [debouncedUpdate]
    (deadline and the [newState] it will [set]). *)
Record FState : Type := mkFState {
  value : FilterState;
  pending : option (Z * FilterState)
}.

(** The store's methods. [updateFilters] takes a [Partial<FilterState>]:
    [None] for an absent member. *)
Inductive FiltersOp : Type :=
| SetRegion (region : option string)
| SetImpactCategory (impactCategory : option string)
| UpdateFilters (region : option (option string)) (impactCategory : option (option string))
| Clear
| Reset.

(** The [newState] an updating method computes from the current value. *)
Definition new_state (op : FiltersOp) (state : FilterState) : option FilterState :=
  match op with
  | SetRegion r => Some (mkFilterState r (f_impactCategory state))
  | SetImpactCategory c => Some (mkFilterState (f_region state) c)
  | UpdateFilters r c =>
      Some (mkFilterState (match r with Some v => v | None => f_region state end)
                          (match c with Some v => v | None => f_impactCategory state end))
  | Clear => Some initialState
  | Reset => None
  end.

Definition debounce_delay : Z := 100.

(** A due timer runs [set(newState)]. *)
Definition fire_due (t : Z) (s : FState) : FState :=
  match pending s with
  | Some (d, v) => if d <=? t then mkFState v None else s
  | None => s
  end.

(** A method call at time [t]: [update] sets the value to [newState] and
    calls [debouncedUpdate(newState)], which replaces the pending timer;
    [reset] calls [set(initialState)] and leaves the timer alone. *)
Definition step (t : Z) (op : FiltersOp) (s : FState) : FState :=
  let s := fire_due t s in
  match new_state op (value s) with
  | Some ns => mkFState ns (Some (t + debounce_delay, ns))
  | None => mkFState initialState (pending s)
  end.

Fixpoint run (ops : list (Z * FiltersOp)) (s : FState) : FState :=
  match ops with
  | [] => s
  | (t, op) :: rest => run rest (step t op s)
  end.

(** Once all timers have run. *)
Definition settle (s : FState) : FilterState :=
  match pending s with Some (_, v) => v | None => value s end.

End FiltersStore.

(** ** More of the error utilities (src/src/lib/utils/errors.ts) *)

Module ErrorsExtras.
Import Errors.

Definition getUserFriendlyMessage (error : ErrorInfo) : string :=
  match ei_severity error with
  | CRITICAL => "A critical error occurred. Please refresh the page and try again."
  | HIGH => "Something went wrong. Please try again in a moment."
  | MEDIUM => "There was an issue processing your request. Please try again."
  | LOW => "A minor issue occurred, but you can continue using the application."
  end.

(** How a call of the wrapped function ends: a value, or a thrown value
    (for the async wrapper: the awaited promise resolves or rejects). *)
Inductive Completion (R : Type) : Type :=
| Normal (r : R)
| Abrupt (t : Thrown).
Arguments Normal {R}.
Arguments Abrupt {R}.

(** The [catch] of both wrappers: [handleError] at clock [now], then
    [throw new Error(getUserFriendlyMessage(errorInfo))]. *)
Definition withSyncErrorHandling {R} (now : Z) (context : option string)
  (call : Completion R) : Completion R :=
  match call with
  | Normal r => Normal r
  | Abrupt error =>
      let errorInfo := handleError now error context in
      Abrupt (TError (mkJsError KOtherError (getUserFriendlyMessage errorInfo) None))
  end.

Definition withErrorHandling {R} (now : Z) (context : option string)
  (settled : Completion R) : Completion R :=
  match settled with
  | Normal r => Normal r
  | Abrupt error =>
      let errorInfo := handleError now error context in
      Abrupt (TError (mkJsError KOtherError (getUserFriendlyMessage errorInfo) None))
  end.

End ErrorsExtras.

(** ** All of the map store (src/unnamed/part_016) *)

Module MapStoreExtras.
Import MapStore.

Section WithMap.
Variable MapboxMap : Type.

Definition initialState : MapState MapboxMap := mkMapState MapboxMap None false None false.

Definition setInstance (map : MapboxMap) (st : MapState MapboxMap) : MapState MapboxMap :=
  mkMapState MapboxMap (Some map) (isLoaded st) None (isInteracting st).

Definition setLoaded (loaded : bool) (st : MapState MapboxMap) : MapState MapboxMap :=
  mkMapState MapboxMap (instance st) loaded (error st) (isInteracting st).

Definition setInteracting (interacting : bool) (st : MapState MapboxMap)
  : MapState MapboxMap :=
  mkMapState MapboxMap (instance st) (isLoaded st) (error st) interacting.

Inductive MapOp : Type :=
| OpSetInstance (map : MapboxMap)
| OpSetLoaded (loaded : bool)
| OpSetError (e : option string)
| OpSetInteracting (interacting : bool)
| OpReset.

Definition run_op (op : MapOp) (st : MapState MapboxMap) : MapState MapboxMap :=
  match op with
  | OpSetInstance m => setInstance m st
  | OpSetLoaded b => setLoaded b st
  | OpSetError e => setError e st
  | OpSetInteracting b => setInteracting b st
  | OpReset => initialState
  end.

Definition run_ops (ops : list MapOp) (st : MapState MapboxMap) : MapState MapboxMap :=
  fold_left (fun s op => run_op op s) ops st.

End WithMap.
Arguments initialState {MapboxMap}.
Arguments setInstance {MapboxMap}.
Arguments setLoaded {MapboxMap}.
Arguments setInteracting {MapboxMap}.
Arguments OpSetInstance {MapboxMap}.
Arguments OpSetLoaded {MapboxMap}.
Arguments OpSetError {MapboxMap}.
Arguments OpSetInteracting {MapboxMap}.
Arguments OpReset {MapboxMap}.
Arguments run_op {MapboxMap}.
Arguments run_ops {MapboxMap}.

End MapStoreExtras.

(** ** The selected-project store (src/src/lib/stores/selectedProject.ts) *)

Module SelectedProject.

Section WithElement.
(** DOM elements are opaque to the store. *)
Variable HTMLElement : Type.

Record SelectedProjectState : Type := mkSelectedProjectState {
  selectedProject : option Project;
  isOpen : bool;
  previousFocusElement : option HTMLElement
}.

Definition initialState : SelectedProjectState := mkSelectedProjectState None false None.

(** [selectProject(project)], with [document.activeElement] at the call. *)
Definition selectProject (activeElement : option HTMLElement) (project : Project)
  (state : SelectedProjectState) : SelectedProjectState :=
  mkSelectedProjectState (Some project) true activeElement.

(** [closeModal()]: the new state, and the element whose [focus()] the
    [setTimeout(..., 0)] will call, if one was scheduled. *)
Definition closeModal (state : SelectedProjectState)
  : SelectedProjectState * option HTMLElement :=
  (mkSelectedProjectState None false None,
   match previousFocusElement state with Some el => Some el | None => None end).

End WithElement.
Arguments initialState {HTMLElement}.
Arguments selectProject {HTMLElement}.
Arguments closeModal {HTMLElement}.
Arguments previousFocusElement {HTMLElement}.
Arguments selectedProject {HTMLElement}.
Arguments isOpen {HTMLElement}.

End SelectedProject.

(** ** Marker elements (src/src/lib/components/ProjectMarkers.svelte) *)

Module MarkerElement.

(** The own properties of [Object.prototype], which a lookup on an object
    literal falls back to. *)
Definition object_prototype_keys : list string :=
  ["constructor"; "__defineGetter__"; "__defineSetter__"; "hasOwnProperty";
   "__lookupGetter__"; "__lookupSetter__"; "isPrototypeOf"; "propertyIsEnumerable";
   "toString"; "valueOf"; "__proto__"; "toLocaleString"].

(** The value of [colors[impactCategory] || '#6B7280']: a string, or a
    member inherited from [Object.prototype] (a function, or the prototype
    object for [__proto__]; all truthy). *)
Inductive ColorValue : Type :=
| ColorString (s : string)
| InheritedMember (name : string).

Definition colors : list (string * string) :=
  [("renewable-energy", "#10B981"); ("conservation", "#3B82F6");
   ("sustainable-agriculture", "#F59E0B"); ("waste-management", "#8B5CF6")].

Definition getMarkerColor (impactCategory : string) : ColorValue :=
  match find (fun kv => String.eqb (fst kv) impactCategory) colors with
  | Some (_, c) => if truthy (JStr c) then ColorString c else ColorString "#6B7280"
  | None =>
      if existsb (String.eqb impactCategory) object_prototype_keys
      then InheritedMember impactCategory
      else ColorString "#6B7280"
  end.

Fixpoint remove_chars (bad : list ascii) (s : string) : string :=
  match s with
  | EmptyString => EmptyString
  | String c r =>
      if existsb (Ascii.eqb c) bad then remove_chars bad r else String c (remove_chars bad r)
  end.

(** [s.replace(/c/g, rep)] for one character [c]. *)
Fixpoint replace_char (c : ascii) (rep : string) (s : string) : string :=
  match s with
  | EmptyString => EmptyString
  | String c' r => if Ascii.eqb c' c then rep ++ replace_char c rep r
                   else String c' (replace_char c rep r)
  end.

(** [safeTitle], for a [string] title: [String(s)] is [s] itself. *)
Definition safeTitle (title : string) : string :=
  if truthy (JStr title)
  then remove_chars ["034"%char; "'"%char; "<"%char; ">"%char] title
  else "Climate Project".

Definition escapedTitle (safe : string) : string :=
  replace_char ">"%char "&gt;" (replace_char "<"%char "&lt;" (replace_char "&"%char "&amp;" safe)).

Definition ariaLabel (title : string) : string := "Climate project: " ++ safeTitle title.

End MarkerElement.

(** * Readings of the claims *)

Module Readings.

(** The reading of a filter in the claim: a non-empty string [s] admits
    exactly the values equal to [s]; [null] or the empty string admits
    every value. *)
Definition filter_admits (f : option string) (v : string) : bool :=
  match f with
  | Some s => String.eqb s "" || String.eqb v s
  | None => true
  end.

(** Calendar readings for [validateISODate]: the Gregorian leap rule, the
    month lengths, a real calendar date, and its [YYYY-MM-DD] spelling. *)
Definition greg_leap (y : Z) : bool :=
  ((Z.modulo y 4 =? 0)%Z && negb (Z.modulo y 100 =? 0)%Z) || (Z.modulo y 400 =? 0)%Z.

Definition days_in_month (y m : Z) : Z :=
  if (m =? 2)%Z then (if greg_leap y then 29 else 28)%Z
  else if ((m =? 4) || (m =? 6) || (m =? 9) || (m =? 11))%Z then 30%Z
  else 31%Z.

Definition real_date (y m d : Z) : bool :=
  ((1 <=? m) && (m <=? 12) && (1 <=? d) && (d <=? days_in_month y m))%Z.

Definition iso_string (y m d : Z) : string :=
  Dates.pad 4 y ++ "-" ++ Dates.pad 2 m ++ "-" ++ Dates.pad 2 d.

(** The time value of the date's UTC midnight. *)
Definition utc_midnight (y m d : Z) : Z :=
  Dates.MakeDate (Dates.MakeDay y (m - 1) d) 0.

(** The finite part of the date arithmetic: for each leap flag, month and
    day number up to 31, the day within the year it lands on, and what
    MonthFromTime and DateFromTime read back from it. *)
Definition zrange (lo : Z) (n : nat) : list Z :=
  map (fun k => (lo + Z.of_nat k)%Z) (List.seq 0 n).

Definition dim_leap (leap m : Z) : Z :=
  if (m =? 2)%Z then (28 + leap)%Z
  else if ((m =? 4) || (m =? 6) || (m =? 9) || (m =? 11))%Z then 30%Z
  else 31%Z.

Definition table_entry (leap m d : Z) : bool :=
  let dwy := (Dates.month_start leap (m - 1) + d - 1)%Z in
  let mon := Dates.MonthFromDWY leap dwy in
  let date := Dates.DateFromDWY leap dwy in
  ((0 <=? dwy) && (dwy <? 365 + leap) && (0 <=? mon) && (mon <=? 11)
   && (1 <=? date) && (date <=? 31)
   && Bool.eqb ((mon + 1 =? m) && (date =? d)) (d <=? dim_leap leap m))%Z.

Definition date_table : bool :=
  forallb (fun leap => forallb (fun m => forallb (fun d => table_entry leap m d)
                                                 (zrange 1 31))
                               (zrange 1 12))
          [0%Z; 1%Z].

(** A string of exactly ten characters. *)
Definition str10 (c0 c1 c2 c3 c4 c5 c6 c7 c8 c9 : ascii) : string :=
  String c0 (String c1 (String c2 (String c3 (String c4 (String c5 (String c6
    (String c7 (String c8 (String c9 EmptyString))))))))).

(** A project with only an id and coordinates, for the examples. *)
Definition demo_project (pid : string) (c : jsval) : Project :=
  mkProject pid "" "" "" "" c None None None None.

End Readings.

(** * Readings of further properties *)

Module StoreReadings.

(** A burst of debounced calls: in time order, each before the previous
    one's timer is due. *)
Fixpoint burst {A} (delay : Z) (calls : list (Z * A)) : bool :=
  match calls with
  | (t1, _) :: (((t2, _) :: _) as rest) =>
      (t1 <=? t2)%Z && (t2 <? t1 + HelpersExtras.timer_timeout delay)%Z && burst delay rest
  | _ => true
  end.

(** The value of a field after a sequence of map-store operations: the
    one written by the last operation that writes it. *)
Definition last_write {Op X} (w : Op -> option X) (ops : list Op) (init : X) : X :=
  fold_left (fun acc op => match w op with Some x => x | None => acc end) ops init.

Section MapWrites.
Import MapStoreExtras.
Variable M : Type.
Definition writes_instance (op : MapOp M) : option (option M) :=
  match op with OpSetInstance m => Some (Some m) | OpReset => Some None | _ => None end.
Definition writes_isLoaded (op : MapOp M) : option bool :=
  match op with
  | OpSetLoaded b => Some b | OpSetError _ => Some false | OpReset => Some false | _ => None
  end.
Definition writes_error (op : MapOp M) : option (option string) :=
  match op with
  | OpSetInstance _ => Some None | OpSetError e => Some e | OpReset => Some None | _ => None
  end.
Definition writes_isInteracting (op : MapOp M) : option bool :=
  match op with OpSetInteracting b => Some b | OpReset => Some false | _ => None end.
End MapWrites.
Arguments writes_instance {M}.
Arguments writes_isLoaded {M}.
Arguments writes_error {M}.
Arguments writes_isInteracting {M}.

End StoreReadings.

Module TextReadings.

(** ASCII upper case of one character. *)
Definition upper_ascii (c : ascii) : ascii :=
  if ((97 <=? nat_of_ascii c) && (nat_of_ascii c <=? 122))%nat
  then ascii_of_nat (nat_of_ascii c - 32) else c.

(** Title case of a kebab-case string: each hyphen becomes a space and
    the first character of each word is upper-cased; [start] says whether
    the next character begins a word. *)
Fixpoint title_case (start : bool) (s : string) : string :=
  match s with
  | EmptyString => EmptyString
  | String c r =>
      if Ascii.eqb c "-"%char then String " "%char (title_case true r)
      else String (if start then upper_ascii c else c) (title_case false r)
  end.

(** The word with its first character upper-cased. *)
Definition cap_word (w : string) : string :=
  match w with EmptyString => EmptyString | String c r => String (upper_ascii c) r end.

End TextReadings.

(** * Properties *)

(** ** Projects store *)

Module ProjectsStoreFacts.
Import ProjectsStore Readings.

Lemma filter_filter_andb {A} (p q : A -> bool) (l : list A) :
  filter q (filter p l) = filter (fun x => p x && q x) l.
Proof.
  induction l as [|x l IH]; simpl; [reflexivity|].
  destruct (p x); simpl; [destruct (q x); simpl; rewrite ?IH; reflexivity | exact IH].
Qed.

Lemma filter_true_ext {A} (p : A -> bool) (l : list A) :
  (forall x, p x = true) -> filter p l = l.
Proof.
  intros H; induction l as [|x l IH]; simpl; [reflexivity|].
  rewrite H, IH; reflexivity.
Qed.

Lemma filter_step (f : option string) (sel : Project -> string) (l : list Project) :
  (if filter_truthy f
   then filter (fun p => String.eqb (sel p) (filter_value f)) l else l)
  = filter (fun p => filter_admits f (sel p)) l.
Proof.
  destruct f as [s|]; simpl.
  - destruct (String.eqb_spec s "") as [->|Hne]; simpl.
    + symmetry; apply filter_true_ext; reflexivity.
    + apply filter_ext; intros p; reflexivity.
  - symmetry; apply filter_true_ext; reflexivity.
Qed.

(** C1: the filtered view keeps, in the order of [allProjects], exactly
    the projects whose region equals a non-empty region filter and whose
    impact category equals a non-empty category filter; with both filters
    null it is [allProjects] itself. *)
Theorem filteredProjects_spec (st : ProjectsState) :
  filteredProjects st
  = filter (fun p => filter_admits (f_region (filters st)) (region p)
                     && filter_admits (f_impactCategory (filters st)) (impactCategory p))
           (allProjects st)
  /\ (f_region (filters st) = None -> f_impactCategory (filters st) = None ->
      filteredProjects st = allProjects st).
Proof.
  assert (E : filteredProjects st
              = filter (fun p => filter_admits (f_region (filters st)) (region p)
                       && filter_admits (f_impactCategory (filters st)) (impactCategory p))
                       (allProjects st)).
  { unfold filteredProjects.
    rewrite (filter_step (f_region (filters st)) region).
    rewrite (filter_step (f_impactCategory (filters st)) impactCategory).
    apply filter_filter_andb. }
  split; [exact E|].
  intros Hr Hc; rewrite E, Hr, Hc; apply filter_true_ext; reflexivity.
Qed.

(** C10: no filter operation changes [allProjects]; each one only
    replaces the [filters] record. *)
Theorem filter_ops_keep_allProjects (op : FilterOp) (st : ProjectsState) :
  allProjects (run_filter_op op st) = allProjects st
  /\ run_filter_op op st = mkProjectsState (allProjects st) (filters (run_filter_op op st)).
Proof. destruct op; split; reflexivity. Qed.

End ProjectsStoreFacts.

(** ** Map store *)

Module MapStoreFacts.
Import MapStore.

(** C9: [setError e] sets [error] to [e] and [isLoaded] to false, and keeps
    [instance] and [isInteracting]. *)
Theorem setError_frame (M : Type) (st : MapState M) (e : option string) :
  error (setError e st) = e /\ isLoaded (setError e st) = false
  /\ instance (setError e st) = instance st
  /\ isInteracting (setError e st) = isInteracting st.
Proof. repeat split. Qed.

End MapStoreFacts.

(** ** Error handling *)

Module ErrorsFacts.
Import Errors.

(** C7: [handleError] is total and classifies: HIGH for [ProjectDataError]
    and [MapError], MEDIUM for [ValidationError], MEDIUM with the error's
    own message for any other [Error], MEDIUM with
    'An unknown error occurred' for a non-[Error] value. *)
Theorem handleError_classification (now : Z) (error : Thrown) (context : option string) :
  let info := handleError now error context in
  match error with
  | TError e =>
      match err_kind e with
      | KProjectDataError | KMapError => ei_severity info = HIGH
      | KValidationError => ei_severity info = MEDIUM
      | KOtherError => ei_severity info = MEDIUM /\ ei_message info = err_message e
      end
  | TNonError _ =>
      ei_severity info = MEDIUM /\ ei_message info = "An unknown error occurred"
  end.
Proof.
  destruct error as [[k m c]|v]; simpl; [destruct k; simpl; auto | auto].
Qed.

End ErrorsFacts.

(** ** [uniqueBy] *)

Module HelpersFacts.
Import Helpers.
Local Open Scope list_scope.

Section UniqueByFacts.

Variables (T K : Type).
Variable key_eqb : K -> K -> bool.
Hypothesis key_eqb_spec : forall a b, key_eqb a b = true <-> a = b.
Variable keyFn : T -> K.

Lemma set_has_In (seen : list K) (k : K) :
  set_has K key_eqb seen k = true <-> In k seen.
Proof.
  unfold set_has; rewrite existsb_exists; split.
  - intros [k' [Hin Heq]]; apply key_eqb_spec in Heq; subst; exact Hin.
  - intros Hin; exists k; split; [exact Hin | apply key_eqb_spec; reflexivity].
Qed.

Lemma go_ext (s1 s2 : list K) (xs : list T) :
  (forall k, In k s1 <-> In k s2) ->
  uniqueBy_go key_eqb keyFn s1 xs = uniqueBy_go key_eqb keyFn s2 xs.
Proof.
  revert s1 s2; induction xs as [|x xs IH]; intros s1 s2 H; simpl; [reflexivity|].
  assert (Hs : set_has K key_eqb s1 (keyFn x) = set_has K key_eqb s2 (keyFn x)).
  { destruct (set_has K key_eqb s1 (keyFn x)) eqn:E1;
    destruct (set_has K key_eqb s2 (keyFn x)) eqn:E2; try reflexivity.
    - apply set_has_In, H, set_has_In in E1; congruence.
    - apply set_has_In, H, set_has_In in E2; congruence. }
  rewrite Hs; destruct (set_has K key_eqb s2 (keyFn x)).
  - apply IH, H.
  - f_equal; apply IH; intros k; rewrite !in_app_iff; firstorder.
Qed.

Lemma existsb_keys (pre : list T) (k : K) :
  existsb (fun y => key_eqb (keyFn y) k) pre = set_has K key_eqb (map keyFn pre) k.
Proof.
  unfold set_has; induction pre as [|y pre IH]; simpl; [reflexivity|].
  rewrite IH; reflexivity.
Qed.

Lemma go_first_occurrences (pre xs : list T) :
  uniqueBy_go key_eqb keyFn (map keyFn pre) xs
  = map fst
      (filter (fun xi => negb (existsb (fun y => key_eqb (keyFn y) (keyFn (fst xi)))
                                       (firstn (snd xi) (pre ++ xs))))
              (combine xs (seq (List.length pre) (List.length xs)))).
Proof.
  revert pre; induction xs as [|x xs IH]; intros pre; simpl; [reflexivity|].
  assert (Hf : firstn (List.length pre) (pre ++ x :: xs) = pre).
  { rewrite firstn_app, Nat.sub_diag, firstn_O, app_nil_r, firstn_all; reflexivity. }
  rewrite Hf, existsb_keys.
  assert (Htail : uniqueBy_go key_eqb keyFn (map keyFn (pre ++ [x])) xs
          = map fst
              (filter (fun xi => negb (existsb (fun y => key_eqb (keyFn y) (keyFn (fst xi)))
                                               (firstn (snd xi) (pre ++ x :: xs))))
                      (combine xs (seq (S (List.length pre)) (List.length xs))))).
  { rewrite IH, length_app, Nat.add_comm; simpl; rewrite <- app_assoc; reflexivity. }
  destruct (set_has K key_eqb (map keyFn pre) (keyFn x)) eqn:E; simpl.
  - rewrite <- Htail; apply go_ext; intros k; rewrite map_app, in_app_iff; simpl.
    apply set_has_In in E; split; [auto | intros [H|[H|[]]]; subst; auto].
  - rewrite map_app in Htail; simpl in Htail; rewrite <- Htail; reflexivity.
Qed.

Lemma go_fresh_nodup (seen : list K) (xs : list T) :
  (forall y, In y (uniqueBy_go key_eqb keyFn seen xs) -> ~ In (keyFn y) seen)
  /\ NoDup (map keyFn (uniqueBy_go key_eqb keyFn seen xs)).
Proof.
  revert seen; induction xs as [|x xs IH]; intros seen; simpl.
  - split; [intros _ []|constructor].
  - destruct (set_has K key_eqb seen (keyFn x)) eqn:E; [apply IH|].
    destruct (IH (seen ++ [keyFn x])) as [Hf Hn]; split.
    + intros y [<-|Hy].
      * intros Hin; apply set_has_In in Hin; congruence.
      * intros Hin; apply (Hf y Hy), in_app_iff; auto.
    + simpl; constructor; [|exact Hn].
      intros Hin; apply in_map_iff in Hin as [y [Hy Hin]].
      apply (Hf y Hin); rewrite Hy; apply in_app_iff; simpl; auto.
Qed.

Lemma go_id (seen : list K) (xs : list T) :
  NoDup (map keyFn xs) -> (forall x, In x xs -> ~ In (keyFn x) seen) ->
  uniqueBy_go key_eqb keyFn seen xs = xs.
Proof.
  revert seen; induction xs as [|x xs IH]; intros seen Hnd Hfr; simpl; [reflexivity|].
  inversion Hnd as [|? ? Hnotin Hnd']; subst.
  destruct (set_has K key_eqb seen (keyFn x)) eqn:E.
  - apply set_has_In in E; exfalso; apply (Hfr x); simpl; auto.
  - f_equal; apply IH; [exact Hnd'|].
    intros y Hy Hin; apply in_app_iff in Hin as [Hin|[Heq|[]]].
    + apply (Hfr y); simpl; auto.
    + apply Hnotin; rewrite Heq; apply in_map; exact Hy.
Qed.

(** C8: [uniqueBy] keeps exactly the first occurrence of each key, in
    order; its keys are pairwise distinct; and it is idempotent. *)
Theorem uniqueBy_spec (array : list T) :
  uniqueBy key_eqb keyFn array = first_occurrences key_eqb keyFn array
  /\ NoDup (map keyFn (uniqueBy key_eqb keyFn array))
  /\ uniqueBy key_eqb keyFn (uniqueBy key_eqb keyFn array) = uniqueBy key_eqb keyFn array.
Proof.
  split; [|split].
  - exact (go_first_occurrences [] array).
  - apply go_fresh_nodup.
  - unfold uniqueBy at 1; apply go_id; [apply go_fresh_nodup | intros x _ []].
Qed.

End UniqueByFacts.

(** A use of C8 on integer keys. *)
Lemma uniqueBy_spec_witness :
  (forall a b, Nat.eqb a b = true <-> a = b)
  /\ uniqueBy Nat.eqb (fun x : nat => x) [1; 2; 1; 3]%nat
     = first_occurrences Nat.eqb (fun x : nat => x) [1; 2; 1; 3]%nat.
Proof.
  split; [exact Nat.eqb_eq|].
  apply (uniqueBy_spec nat nat Nat.eqb Nat.eqb_eq (fun x => x) [1; 2; 1; 3]%nat).
Defined.

End HelpersFacts.

(** ** Marker reconciliation *)

Module MarkersFacts.
Import Markers Readings.
Local Open Scope list_scope.

Lemma marker_set_has_In (s : list string) (k : string) : set_has s k = true <-> In k s.
Proof.
  unfold set_has; rewrite existsb_exists; split.
  - intros [k' [Hin Heq]]; apply String.eqb_eq in Heq; subst; exact Hin.
  - intros Hin; exists k; split; [exact Hin | apply String.eqb_refl].
Qed.

Lemma set_has_false (s : list string) (k : string) : set_has s k = false <-> ~ In k s.
Proof.
  rewrite <- marker_set_has_In; destruct (set_has s k); split; congruence.
Qed.

Section Reconcile.

Variables MapboxMap Marker : Type.
Variable mapbox_add_marker : MapboxMap -> Project -> option Marker.
Variable mapbox_remove : Marker -> bool.

Lemma remove_phase_eq (c : list string) (m : list (string * Marker)) (st : MarkerState Marker) :
  remove_phase mapbox_remove c m st
  = mkMarkerState
      (filter (fun kv => negb (set_has
                 (map fst (filter (fun kv' => negb (set_has c (fst kv')) && mapbox_remove (snd kv')) m))
                 (fst kv)))
              (markers st))
      (log st ++ map EvRemoved
                 (map fst (filter (fun kv' => negb (set_has c (fst kv')) && mapbox_remove (snd kv')) m))).
Proof.
  revert st; induction m as [|[pid mk] rest IH]; intros st; simpl.
  - rewrite app_nil_r, ProjectsStoreFacts.filter_true_ext by reflexivity.
    destruct st; reflexivity.
  - rewrite IH; destruct (set_has c pid) eqn:Hc; simpl; [reflexivity|].
    destruct (mapbox_remove mk); simpl; [|reflexivity].
    rewrite ProjectsStoreFacts.filter_filter_andb, <- app_assoc; f_equal.
    apply filter_ext; intros [k v]; simpl.
    destruct (String.eqb k pid); reflexivity.
Qed.

Lemma keys_filter_In (P : string -> bool) (m : list (string * Marker)) (k : string) :
  In k (keys (filter (fun kv => P (fst kv)) m)) <-> In k (keys m) /\ P k = true.
Proof.
  unfold keys; split.
  - intros H; apply in_map_iff in H as [[a b] [<- Hin]].
    apply filter_In in Hin as [Hin Hp]; split; [|exact Hp].
    change a with (fst (a, b)); apply in_map; exact Hin.
  - intros [H Hp]; apply in_map_iff in H as [[a b] [<- Hin]].
    change a with (fst (a, b)); apply in_map, filter_In; split; [exact Hin | exact Hp].
Qed.

Lemma keys_map_set (m : list (string * Marker)) (k : string) (v : Marker) (k' : string) :
  In k' (keys (map_set m k v)) <-> In k' (keys m) \/ k' = k.
Proof.
  unfold map_set; destruct (set_has (keys m) k) eqn:Hk.
  - assert (E : keys (map (fun kv => if String.eqb (fst kv) k then (k, v) else kv) m) = keys m).
    { unfold keys; rewrite map_map; apply map_ext; intros [a b]; simpl.
      destruct (String.eqb_spec a k); subst; reflexivity. }
    rewrite E; apply marker_set_has_In in Hk; split; [auto|intros [H| ->]; auto].
  - unfold keys; rewrite map_app, in_app_iff; simpl; split; intros [H|H]; auto;
      destruct H as [H|[]]; auto.
Qed.

Lemma map_get_map_set_other (m : list (string * Marker)) (k : string) (v : Marker) (k' : string) :
  k' <> k -> map_get (map_set m k v) k' = map_get m k'.
Proof.
  intros Hne; unfold map_set, map_get; destruct (set_has (keys m) k).
  - induction m as [|[a b] m IH]; simpl; [reflexivity|].
    destruct (String.eqb_spec a k) as [->|Hak]; simpl.
    + destruct (String.eqb_spec k k') as [E|_]; [congruence|exact IH].
    + destruct (String.eqb a k'); [reflexivity|exact IH].
  - induction m as [|[a b] m IH]; simpl.
    + destruct (String.eqb_spec k k') as [E|_]; [congruence|reflexivity].
    + destruct (String.eqb a k'); [reflexivity|exact IH].
Qed.

Lemma map_get_filter (P : string * Marker -> bool) (m : list (string * Marker)) (k : string) :
  (forall kv, fst kv = k -> P kv = true) -> map_get (filter P m) k = map_get m k.
Proof.
  intros HP; unfold map_get; induction m as [|[a b] m IH]; simpl; [reflexivity|].
  destruct (String.eqb_spec a k) as [->|Hak].
  - rewrite (HP (k, b) eq_refl); simpl; rewrite String.eqb_refl; reflexivity.
  - destruct (P (a, b)); simpl; [|exact IH].
    apply String.eqb_neq in Hak; rewrite Hak; exact IH.
Qed.

Lemma add_phase_lookup (map0 : MapboxMap) (ex : list string) (projects : list Project)
  (st : MarkerState Marker) (k : string) :
  set_has ex k = true ->
  map_get (markers (fold_left (add_one mapbox_add_marker map0 ex) projects st)) k
  = map_get (markers st) k.
Proof.
  intros Hk; revert st; induction projects as [|p ps IH]; intros st; simpl; [reflexivity|].
  rewrite IH; unfold add_one.
  destruct (set_has ex (id p)) eqn:Hp; [reflexivity|].
  destruct (negb (coords_ok (coordinates p))); [reflexivity|].
  destruct (mapbox_add_marker map0 p); [|reflexivity]; simpl.
  apply map_get_map_set_other; intros ->; congruence.
Qed.

Lemma add_phase_keys_log (map0 : MapboxMap) (ex : list string) (projects : list Project)
  (st : MarkerState Marker) :
  let added := filter (fun p => negb (set_has ex (id p)) && coords_ok (coordinates p)
                                && match mapbox_add_marker map0 p with Some _ => true | None => false end) projects in
  let st' := fold_left (add_one mapbox_add_marker map0 ex) projects st in
  (forall k, In k (keys (markers st')) <-> In k (keys (markers st)) \/ In k (map id added))
  /\ log st' = log st ++ map (fun p => EvAdded (id p)) added.
Proof.
  revert st; induction projects as [|p ps IH]; intros st; simpl.
  - split; [intros k; split; [auto|intros [H|[]]; exact H]|].
    rewrite app_nil_r; reflexivity.
  - destruct (IH (add_one mapbox_add_marker map0 ex st p)) as [Hkeys Hlog].
    unfold add_one in Hkeys, Hlog |- *.
    destruct (set_has ex (id p)) eqn:Hp; simpl in Hkeys, Hlog |- *; [split; assumption|].
    destruct (coords_ok (coordinates p)); simpl in Hkeys, Hlog |- *; [|split; assumption].
    destruct (mapbox_add_marker map0 p) as [mk|]; simpl in Hkeys, Hlog |- *;
      [|split; assumption].
    split.
    + intros k; rewrite Hkeys, keys_map_set; split.
      * intros [[H| ->]|H]; auto.
      * intros [H|[H|H]]; auto.
    + rewrite Hlog, <- app_assoc; reflexivity.
Qed.

(** C2 (amended): on a present map instance, [updateMarkers] removes
    exactly the markers whose id is no longer filtered and whose
    [remove()] returns (a throwing [remove()] leaves the entry); every
    other marker stays untouched, so a filtered project keeps its marker
    even when its coordinates contain NaN; and it creates markers, in list
    order, exactly for the filtered projects that had no marker, whose
    coordinates are two non-NaN numbers and for which the Mapbox
    construction does not throw. The key set becomes the set of filtered
    ids when no Mapbox call throws and every filtered project without a
    marker has such coordinates. *)
Theorem updateMarkers_reconciles (map0 : MapboxMap) (projects : list Project)
  (st : MarkerState Marker) :
  let ids := map id projects in
  let removed := map fst (filter (fun kv => negb (set_has ids (fst kv)) && mapbox_remove (snd kv))
                                 (markers st)) in
  let added := filter (fun p => negb (set_has (keys (markers st)) (id p))
                                && coords_ok (coordinates p)
                                && match mapbox_add_marker map0 p with Some _ => true | None => false end) projects in
  let st' := updateMarkers mapbox_add_marker mapbox_remove (Some map0) projects st in
  (forall k, In k (keys (markers st')) <->
             (In k (keys (markers st)) /\ ~ In k removed) \/ In k (map id added))
  /\ (forall k, In k removed -> ~ In k ids)
  /\ (forall k, In k (keys (markers st)) -> ~ In k removed ->
                map_get (markers st') k = map_get (markers st) k)
  /\ log st' = log st ++ map EvRemoved removed ++ map (fun p => EvAdded (id p)) added
  /\ ((forall mk, mapbox_remove mk = true) ->
      (forall p, In p projects -> mapbox_add_marker map0 p <> None) ->
      (forall p, In p projects -> ~ In (id p) (keys (markers st)) ->
                 coords_ok (coordinates p) = true) ->
      forall k, In k (keys (markers st')) <-> In k ids).
Proof.
  intros ids removed added st'.
  assert (Hst' : st' = fold_left (add_one mapbox_add_marker map0 (keys (markers st))) projects
                  (mkMarkerState (filter (fun kv => negb (set_has removed (fst kv))) (markers st))
                                 (log st ++ map EvRemoved removed))).
  { unfold st', updateMarkers; rewrite remove_phase_eq; reflexivity. }
  destruct (add_phase_keys_log map0 (keys (markers st)) projects
              (mkMarkerState (filter (fun kv => negb (set_has removed (fst kv))) (markers st))
                             (log st ++ map EvRemoved removed))) as [Hkeys Hlog].
  fold added in Hkeys, Hlog; rewrite <- Hst' in Hkeys, Hlog.
  assert (Hk : forall k, In k (keys (markers st')) <->
                         (In k (keys (markers st)) /\ ~ In k removed) \/ In k (map id added)).
  { intros k; rewrite Hkeys; cbn [markers].
    rewrite (keys_filter_In (fun k => negb (set_has removed k))).
    rewrite negb_true_iff, set_has_false; tauto. }
  assert (Hr : forall k, In k removed -> ~ In k ids).
  { intros k H; unfold removed in H; apply in_map_iff in H as [[a b] [<- Hin]].
    apply filter_In in Hin as [_ Hin]; apply andb_true_iff in Hin as [Hin _].
    apply negb_true_iff, set_has_false in Hin; exact Hin. }
  split; [exact Hk|split; [exact Hr|split; [|split]]].
  - intros k Hin Hnr; rewrite Hst'.
    rewrite add_phase_lookup by (apply marker_set_has_In; exact Hin); simpl.
    apply map_get_filter; intros [a b] Ha; simpl in Ha; subst.
    apply negb_true_iff, set_has_false; exact Hnr.
  - rewrite Hlog; simpl; rewrite <- app_assoc; reflexivity.
  - intros Hrm Hadd Hok k; rewrite Hk.
    assert (Hrem : In k removed <-> In k (keys (markers st)) /\ ~ In k ids).
    { unfold removed.
      rewrite (filter_ext (fun kv => negb (set_has ids (fst kv)) && mapbox_remove (snd kv))
                          (fun kv => negb (set_has ids (fst kv))))
        by (intros kv; rewrite Hrm, andb_true_r; reflexivity).
      pose proof (keys_filter_In (fun k => negb (set_has ids k)) (markers st) k) as K.
      unfold keys in K; cbv beta in K; rewrite K, negb_true_iff, set_has_false; tauto. }
    assert (Hadded : In k (map id added) <-> In k ids /\ ~ In k (keys (markers st))).
    { unfold added, ids; split.
      - intros H; apply in_map_iff in H as [p [<- Hin]].
        apply filter_In in Hin as [Hin Hc].
        apply andb_true_iff in Hc as [Hc _]; apply andb_true_iff in Hc as [Hc _].
        apply negb_true_iff, set_has_false in Hc.
        split; [apply in_map; exact Hin | exact Hc].
      - intros [H Hn]; apply in_map_iff in H as [p [<- Hin]].
        apply in_map, filter_In; split; [exact Hin|].
        rewrite (Hok p Hin Hn); apply set_has_false in Hn; rewrite Hn; simpl.
        destruct (mapbox_add_marker map0 p) eqn:E; [reflexivity|].
        exfalso; exact (Hadd p Hin E). }
    rewrite Hrem, Hadded.
    destruct (in_dec string_dec k (keys (markers st))); destruct (in_dec string_dec k ids); tauto.
Qed.

End Reconcile.

(** A concrete reconciliation in which no Mapbox call throws and every
    new project has valid coordinates: the keys become the filtered ids. *)
Lemma updateMarkers_reconciles_witness :
  let st' := updateMarkers (fun _ _ => Some 0%nat) (fun _ => true) (Some tt)
               [demo_project "a" (Data.coords 1 2); demo_project "b" (Data.coords 3 4)]
               (mkMarkerState [("b", 7%nat); ("z", 8%nat)] []) in
  In "a" (keys (markers st')) /\ In "b" (keys (markers st')).
Proof.
  assert (Hok : forall p, In p [demo_project "a" (Data.coords 1 2);
                                demo_project "b" (Data.coords 3 4)] ->
                          ~ In (id p) (keys [("b", 7%nat); ("z", 8%nat)]) ->
                          coords_ok (coordinates p) = true)
    by (intros p [<-|[<-|[]]] _; reflexivity).
  assert (Hadd : forall p, In p [demo_project "a" (Data.coords 1 2);
                                 demo_project "b" (Data.coords 3 4)] ->
                           (fun (_ : unit) (_ : Project) => Some 0%nat) tt p <> None)
    by (intros p _; discriminate).
  pose proof (proj2 (proj2 (proj2 (proj2
           (updateMarkers_reconciles unit nat (fun _ _ => Some 0%nat) (fun _ => true) tt
              [demo_project "a" (Data.coords 1 2); demo_project "b" (Data.coords 3 4)]
              (mkMarkerState [("b", 7%nat); ("z", 8%nat)] [])))))
           (fun _ => eq_refl) Hadd Hok) as H.
  split; [apply (proj2 (H "a")); left; reflexivity
         | apply (proj2 (H "b")); right; left; reflexivity].
Defined.

(** C2 as stated fails: a project whose coordinates are the two numbers
    [NaN] and [0] gets no marker, although no Mapbox call throws, so the
    key set misses its id. *)
Lemma updateMarkers_nan_counterexample :
  let p := demo_project "p" (JArr [JNum NNaN; JNum (NFin 0)]) in
  (exists a b, coordinates p = JArr [JNum a; JNum b])
  /\ ~ (forall k, In k (keys (markers (updateMarkers (fun (_ : unit) (_ : Project) => Some 0%nat)
                                          (fun (_ : nat) => true)
                                          (Some tt) [p] (mkMarkerState [] [])))) <->
                  In k (map id [p])).
Proof.
  simpl; split; [eexists; eexists; reflexivity|].
  intros H; destruct (proj2 (H "p") (or_introl eq_refl)).
Qed.

End MarkersFacts.

(** ** Validation *)

Module ValidationFacts.
Import Validation.
Local Open Scope list_scope.

(** C6: [validateProjectUrl] is a total boolean function, whatever URL
    constructor the platform provides: true exactly when [new URL(u)]
    succeeds with protocol [https:]; false for a URL with protocol [http:]
    and for input on which the constructor throws. *)
Theorem validateProjectUrl_spec (new_URL : string -> option Url.URLRecord) (u : string) :
  (validateProjectUrl_with new_URL u = true <->
   exists r, new_URL u = Some r /\ Url.protocol r = "https:")
  /\ (forall r, new_URL u = Some r -> Url.protocol r = "http:" ->
                validateProjectUrl_with new_URL u = false)
  /\ (new_URL u = None -> validateProjectUrl_with new_URL u = false).
Proof.
  unfold validateProjectUrl_with; split; [|split].
  - destruct (new_URL u) as [r|]; split.
    + intros H; exists r; split; [reflexivity | apply String.eqb_eq; exact H].
    + intros [r' [H1 H2]]; injection H1 as <-; apply String.eqb_eq; exact H2.
    + discriminate.
    + intros [r' [H1 _]]; discriminate.
  - intros r -> Hp; rewrite Hp; reflexivity.
  - intros ->; reflexivity.
Qed.

Lemma valid_result_nil (errs : list ValidationError) :
  isValid (mkValidationResult (List.length errs =? 0)%nat errs) = true -> errs = [].
Proof. simpl; intros H; apply Nat.eqb_eq, length_zero_iff_nil in H; exact H. Qed.

Lemma validateProject_valid_nil (now : Z) (p : jsval) :
  isValid (validateProject now p) = true -> errors (validateProject now p) = [].
Proof.
  unfold validateProject; destruct (negb (truthy p) || negb (is_object p)).
  - discriminate.
  - apply valid_result_nil.
Qed.

Lemma verified_errors_in (now : Z) (ps : list (string * jsval)) (e : ValidationError) :
  In e (verified_errors now (JObj ps)) -> In e (errors (validateProject now (JObj ps))).
Proof.
  intros H; unfold validateProject; cbv beta iota zeta delta [truthy is_object negb orb].
  cbn [errors]; rewrite !in_app_iff; tauto.
Qed.

Lemma verified_true_errors (now : Z) (p : jsval) :
  get p "verified" = JBool true ->
  verified_errors now p =
    when (negb (truthy (get p "url")))
         (mkValidationError "url" "URL is required when verified is true" None)
    ++ when (blank_string (get p "source"))
         (err "source" "Source is required when verified is true" (get p "source"))
    ++ when (negb (truthy (get p "dateVerified"))
             || match get p "dateVerified" with
                | JStr s => negb (Dates.validateISODate now s)
                | _ => true
                end)
         (err "dateVerified" "Valid ISO date (YYYY-MM-DD) is required when verified is true"
              (get p "dateVerified")).
Proof. intros H; unfold verified_errors; rewrite H; reflexivity. Qed.

Lemma when_in (b : bool) (e : ValidationError) : b = true -> In e (when b e).
Proof. intros ->; simpl; auto. Qed.

Lemma when_nil (b : bool) (e : ValidationError) : when b e = [] -> b = false.
Proof. destruct b; [discriminate|reflexivity]. Qed.

(** C3: a project whose [verified] field is [true] is valid only with a
    truthy [url], a [source] string with non-blank trimmed content and a
    [dateVerified] string accepted by [validateISODate]; each of the three
    that is missing yields an error naming its field. *)
Theorem verified_requires_documentation (now : Z) (project : jsval)
  (Hv : get project "verified" = JBool true) :
  let res := validateProject now project in
  let url_ok := truthy (get project "url") = true in
  let source_ok := exists s, get project "source" = JStr s
                             /\ String.length (trim s) <> 0%nat in
  let date_ok := exists s, get project "dateVerified" = JStr s
                           /\ Dates.validateISODate now s = true in
  (isValid res = true -> url_ok /\ source_ok /\ date_ok)
  /\ (~ url_ok -> exists e, In e (errors res) /\ field e = "url")
  /\ (~ source_ok -> exists e, In e (errors res) /\ field e = "source")
  /\ (~ date_ok -> exists e, In e (errors res) /\ field e = "dateVerified").
Proof.
  destruct project as [| | | | | |ps]; try discriminate Hv.
  pose proof (verified_true_errors now (JObj ps) Hv) as Hve.
  cbv zeta; split; [|split; [|split]].
  - intros Hval; apply validateProject_valid_nil in Hval.
    assert (Hnil : verified_errors now (JObj ps) = []).
    { destruct (verified_errors now (JObj ps)) as [|e es] eqn:E; [reflexivity|].
      exfalso; pose proof (verified_errors_in now ps e) as Hin.
      rewrite E, Hval in Hin; exact (Hin (or_introl eq_refl)). }
    rewrite Hve in Hnil.
    apply app_eq_nil in Hnil as [H1 Hnil]; apply app_eq_nil in Hnil as [H2 H3].
    apply when_nil in H1, H2, H3.
    split; [apply negb_false_iff in H1; exact H1|split].
    + destruct (get (JObj ps) "source") as [| | | |s| |]; try discriminate H2.
      exists s; split; [reflexivity|].
      simpl in H2; apply orb_false_iff in H2 as [_ H2]; apply Nat.eqb_neq in H2; exact H2.
    + apply orb_false_iff in H3 as [_ H3].
      destruct (get (JObj ps) "dateVerified") as [| | | |s| |]; try discriminate H3.
      exists s; split; [reflexivity | apply negb_false_iff in H3; exact H3].
  - intros Hu; exists (mkValidationError "url" "URL is required when verified is true" None).
    split; [apply verified_errors_in; rewrite Hve|reflexivity].
    apply in_or_app; left; apply when_in.
    destruct (truthy (get (JObj ps) "url")); [contradiction Hu; reflexivity | reflexivity].
  - intros Hs; exists (err "source" "Source is required when verified is true"
                        (get (JObj ps) "source")).
    split; [apply verified_errors_in; rewrite Hve|reflexivity].
    apply in_or_app; right; apply in_or_app; left; apply when_in.
    destruct (get (JObj ps) "source") as [| | | |s| |]; try reflexivity.
    simpl; destruct (String.eqb s ""); [reflexivity|]; simpl.
    destruct (Nat.eqb_spec (String.length (trim s)) 0); [reflexivity|].
    exfalso; apply Hs; exists s; auto.
  - intros Hd; exists (err "dateVerified"
                        "Valid ISO date (YYYY-MM-DD) is required when verified is true"
                        (get (JObj ps) "dateVerified")).
    split; [apply verified_errors_in; rewrite Hve|reflexivity].
    apply in_or_app; right; apply in_or_app; right; apply when_in.
    destruct (get (JObj ps) "dateVerified") as [| | | |s| |];
      try (rewrite orb_true_r; reflexivity); try reflexivity.
    destruct (Dates.validateISODate now s) eqn:E.
    + exfalso; apply Hd; exists s; auto.
    + rewrite orb_true_r; reflexivity.
Qed.

(** A verified project with none of the documentation. *)
Lemma verified_requires_documentation_witness :
  get (JObj [("verified", JBool true)]) "verified" = JBool true
  /\ exists e, In e (errors (validateProject 0 (JObj [("verified", JBool true)])))
               /\ field e = "url".
Proof.
  split; [reflexivity|].
  apply (proj1 (proj2 (verified_requires_documentation 0 (JObj [("verified", JBool true)])
                         eq_refl))).
  simpl; discriminate.
Defined.

End ValidationFacts.

(** ** Dates: [validateISODate] *)

Module DatesFacts.

Import Dates Readings.
Local Open Scope bool_scope.
Local Open Scope Z_scope.

Ltac div_facts x k :=
  pose proof (Z.div_mod x k ltac:(lia)); pose proof (Z.mod_pos_bound x k ltac:(lia)).

Lemma DaysInYear_range y : 365 <= DaysInYear y <= 366.
Proof. unfold DaysInYear; repeat destruct (_ =? _); simpl; lia. Qed.

Lemma div_step x k : 0 < k ->
  (x + 1) / k = x / k + (if (x + 1) mod k =? 0 then 1 else 0).
Proof.
  intros Hk. div_facts x k; div_facts (x + 1) k.
  destruct (Z.eqb_spec ((x + 1) mod k) 0); nia.
Qed.

Lemma mod_shift y c k : 0 < k -> (y - c * k) mod k = y mod k.
Proof.
  intros Hk. replace (y - c * k) with (y + (- c) * k) by ring.
  apply Z_mod_plus_full.
Qed.

Lemma DayFromYear_succ y : DayFromYear (y + 1) = DayFromYear y + DaysInYear y.
Proof.
  unfold DayFromYear, DaysInYear.
  replace (y + 1 - 1970) with (y - 1969) by ring.
  replace (y + 1 - 1969) with (y - 1969 + 1) by ring.
  replace (y + 1 - 1901) with (y - 1901 + 1) by ring.
  replace (y + 1 - 1601) with (y - 1601 + 1) by ring.
  rewrite (div_step (y - 1969) 4), (div_step (y - 1901) 100), (div_step (y - 1601) 400) by lia.
  replace (y - 1969 + 1) with (y - 492 * 4) by ring.
  replace (y - 1901 + 1) with (y - 19 * 100) by ring.
  replace (y - 1601 + 1) with (y - 4 * 400) by ring.
  rewrite !mod_shift by lia.
  div_facts y 4; div_facts y 100; div_facts y 400.
  destruct (Z.eqb_spec (y mod 4) 0), (Z.eqb_spec (y mod 100) 0),
    (Z.eqb_spec (y mod 400) 0); cbv [negb]; lia.
Qed.

Lemma DayFromYear_approx y :
  -506 <= 400 * DayFromYear y - 146097 * (y - 1970) <= 589.
Proof.
  unfold DayFromYear.
  div_facts (y - 1969) 4; div_facts (y - 1901) 100; div_facts (y - 1601) 400. lia.
Qed.

Lemma DayFromYear_lt a b : a < b -> DayFromYear a < DayFromYear b.
Proof.
  intros H. replace b with (a + 1 + Z.of_nat (Z.to_nat (b - a - 1))) by lia.
  induction (Z.to_nat (b - a - 1)) as [|n IH].
  - replace (a + 1 + Z.of_nat 0) with (a + 1) by lia.
    rewrite DayFromYear_succ. pose proof (DaysInYear_range a). lia.
  - replace (a + 1 + Z.of_nat (S n)) with (a + 1 + Z.of_nat n + 1) by lia.
    rewrite DayFromYear_succ. pose proof (DaysInYear_range (a + 1 + Z.of_nat n)). lia.
Qed.

Lemma YearFromDay_spec d :
  DayFromYear (YearFromDay d) <= d < DayFromYear (YearFromDay d + 1).
Proof.
  unfold YearFromDay. set (q := 400 * d / 146097).
  div_facts (400 * d) 146097. fold q in H, H0.
  pose proof (DayFromYear_approx (1970 + q - 1)).
  pose proof (DayFromYear_approx (1970 + q + 1 + 1)).
  destruct (Z.ltb_spec d (DayFromYear (1970 + q))).
  - replace (1970 + q - 1 + 1) with (1970 + q) by ring. lia.
  - destruct (Z.leb_spec (DayFromYear (1970 + q + 1)) d); lia.
Qed.

Lemma YearFromDay_unique y d :
  DayFromYear y <= d < DayFromYear (y + 1) -> YearFromDay d = y.
Proof.
  intros H. pose proof (YearFromDay_spec d) as HY.
  destruct (Z.lt_total (YearFromDay d) y) as [Hl|[He|Hg]]; [|exact He|].
  - destruct (Z.eq_dec (YearFromDay d + 1) y) as [E|E]; [rewrite E in HY; lia|].
    pose proof (DayFromYear_lt (YearFromDay d + 1) y ltac:(lia)). lia.
  - destruct (Z.eq_dec (y + 1) (YearFromDay d)) as [E|E]; [rewrite <- E in HY; lia|].
    pose proof (DayFromYear_lt (y + 1) (YearFromDay d) ltac:(lia)). lia.
Qed.

Lemma In_zrange lo n x : lo <= x < lo + Z.of_nat n -> In x (zrange lo n).
Proof.
  intros H. unfold zrange. apply in_map_iff. exists (Z.to_nat (x - lo)).
  split; [lia|]. apply in_seq. lia.
Qed.

Lemma table_entry_true leap m d :
  (leap = 0 \/ leap = 1) -> 1 <= m <= 12 -> 1 <= d <= 31 -> table_entry leap m d = true.
Proof.
  intros Hl Hm Hd.
  assert (T : date_table = true) by (vm_compute; reflexivity).
  unfold date_table in T. rewrite forallb_forall in T.
  specialize (T leap ltac:(destruct Hl; subst; simpl; tauto)).
  rewrite forallb_forall in T. specialize (T m (In_zrange 1 12 m ltac:(lia))).
  rewrite forallb_forall in T. exact (T d (In_zrange 1 31 d ltac:(lia))).
Qed.

Lemma InLeapYear_01 y : InLeapYear y = 0 \/ InLeapYear y = 1.
Proof. unfold InLeapYear. destruct (_ =? _); auto. Qed.

Lemma DaysInYear_leap y : DaysInYear y = 365 + InLeapYear y.
Proof.
  unfold InLeapYear. pose proof (DaysInYear_range y).
  destruct (Z.eqb_spec (DaysInYear y) 366); lia.
Qed.

Lemma dim_leap_days_in_month y m : dim_leap (InLeapYear y) m = days_in_month y m.
Proof.
  unfold dim_leap, days_in_month, InLeapYear, DaysInYear, greg_leap.
  destruct (m =? 2); [|reflexivity].
  div_facts y 4; div_facts y 100; div_facts y 400.
  destruct (Z.eqb_spec (y mod 4) 0), (Z.eqb_spec (y mod 100) 0),
    (Z.eqb_spec (y mod 400) 0); cbv [negb andb orb]; try reflexivity; lia.
Qed.

Lemma digit_val_char k : 0 <= k <= 9 -> digit_val (digit_char k) = k.
Proof. intros H. unfold digit_val, digit_char. rewrite nat_ascii_embedding by lia. lia. Qed.

Lemma is_digit_char k : 0 <= k <= 9 -> is_digit (digit_char k) = true.
Proof.
  intros H. unfold is_digit, digit_char. rewrite nat_ascii_embedding by lia.
  apply andb_true_intro; split; apply Nat.leb_le; lia.
Qed.

Lemma digit_char_val c : is_digit c = true -> digit_char (digit_val c) = c /\ 0 <= digit_val c <= 9.
Proof.
  unfold is_digit, digit_char, digit_val. intros H.
  apply andb_prop in H as [H1 H2]. apply Nat.leb_le in H1, H2. split; [|lia].
  replace (48 + Z.to_nat (Z.of_nat (nat_of_ascii c) - 48))%nat with (nat_of_ascii c) by lia.
  apply ascii_nat_embedding.
Qed.

Lemma iso_string_chars y m d :
  iso_string y m d =
  str10 (digit_char (y / 10 / 10 / 10 mod 10)) (digit_char (y / 10 / 10 mod 10))
        (digit_char (y / 10 mod 10)) (digit_char (y mod 10)) "-"%char
        (digit_char (m / 10 mod 10)) (digit_char (m mod 10)) "-"%char
        (digit_char (d / 10 mod 10)) (digit_char (d mod 10)).
Proof. reflexivity. Qed.

Lemma iso_format_str10 c0 c1 c2 c3 c5 c6 c8 c9 :
  is_digit c0 = true -> is_digit c1 = true -> is_digit c2 = true -> is_digit c3 = true ->
  is_digit c5 = true -> is_digit c6 = true -> is_digit c8 = true -> is_digit c9 = true ->
  iso_format (str10 c0 c1 c2 c3 "-"%char c5 c6 "-"%char c8 c9) = true.
Proof.
  intros. unfold iso_format, str10, char_at. simpl.
  repeat match goal with H : is_digit _ = true |- _ => rewrite H; clear H end. reflexivity.
Qed.

Lemma digits_str10 c0 c1 c2 c3 c4 c5 c6 c7 c8 c9 :
  let s := str10 c0 c1 c2 c3 c4 c5 c6 c7 c8 c9 in
  digits_val s 0 4 = 10 * (10 * (10 * (10 * 0 + digit_val c0) + digit_val c1) + digit_val c2) + digit_val c3
  /\ digits_val s 5 2 = 10 * (10 * 0 + digit_val c5) + digit_val c6
  /\ digits_val s 8 2 = 10 * (10 * 0 + digit_val c8) + digit_val c9.
Proof. repeat split. Qed.

Lemma iso_format_str10_inv s :
  iso_format s = true ->
  exists c0 c1 c2 c3 c5 c6 c8 c9,
    s = str10 c0 c1 c2 c3 "-"%char c5 c6 "-"%char c8 c9
    /\ is_digit c0 = true /\ is_digit c1 = true /\ is_digit c2 = true /\ is_digit c3 = true
    /\ is_digit c5 = true /\ is_digit c6 = true /\ is_digit c8 = true /\ is_digit c9 = true.
Proof.
  intros H.
  do 10 (destruct s as [|? s]; [discriminate|]).
  destruct s; [|discriminate].
  unfold iso_format, char_at in H; simpl in H.
  repeat (apply andb_prop in H as [H ?]).
  repeat match goal with E : Ascii.eqb _ _ = true |- _ => apply Ascii.eqb_eq in E; subst end.
  do 8 eexists. split; [reflexivity|]. repeat split; try assumption. unfold is_digit; now rewrite H, H9.
Qed.

Lemma four_digits y : 0 <= y <= 9999 ->
  1000 * (y / 10 / 10 / 10 mod 10) + 100 * (y / 10 / 10 mod 10) + 10 * (y / 10 mod 10) + y mod 10 = y.
Proof.
  intros H. div_facts y 10; div_facts (y / 10) 10; div_facts (y / 10 / 10) 10;
  div_facts (y / 10 / 10 / 10) 10. lia.
Qed.

Lemma four_digits_inv a b c e :
  0 <= a <= 9 -> 0 <= b <= 9 -> 0 <= c <= 9 -> 0 <= e <= 9 ->
  let y := 10 * (10 * (10 * (10 * 0 + a) + b) + c) + e in
  y / 10 / 10 / 10 mod 10 = a /\ y / 10 / 10 mod 10 = b /\ y / 10 mod 10 = c /\ y mod 10 = e.
Proof.
  intros Ha Hb Hc He y.
  div_facts y 10; div_facts (y / 10) 10; div_facts (y / 10 / 10) 10;
  div_facts (y / 10 / 10 / 10) 10. subst y. lia.
Qed.

Lemma two_digits_inv a b :
  0 <= a <= 9 -> 0 <= b <= 9 ->
  let m := 10 * (10 * 0 + a) + b in m / 10 mod 10 = a /\ m mod 10 = b.
Proof.
  intros Ha Hb m. div_facts m 10; div_facts (m / 10) 10. subst m. lia.
Qed.

Lemma digits_iso y m d :
  0 <= y <= 9999 -> 0 <= m <= 99 -> 0 <= d <= 99 ->
  iso_format (iso_string y m d) = true
  /\ digits_val (iso_string y m d) 0 4 = y
  /\ digits_val (iso_string y m d) 5 2 = m
  /\ digits_val (iso_string y m d) 8 2 = d.
Proof.
  intros Hy Hm Hd. rewrite iso_string_chars.
  div_facts y 10; div_facts (y / 10) 10; div_facts (y / 10 / 10) 10;
  div_facts (y / 10 / 10 / 10) 10; div_facts m 10; div_facts (m / 10) 10;
  div_facts d 10; div_facts (d / 10) 10.
  split; [apply iso_format_str10; apply is_digit_char; lia|].
  destruct (digits_str10 (digit_char (y / 10 / 10 / 10 mod 10)) (digit_char (y / 10 / 10 mod 10))
        (digit_char (y / 10 mod 10)) (digit_char (y mod 10)) "-"%char
        (digit_char (m / 10 mod 10)) (digit_char (m mod 10)) "-"%char
        (digit_char (d / 10 mod 10)) (digit_char (d mod 10))) as (E1 & E2 & E3).
  rewrite E1, E2, E3. rewrite !digit_val_char by lia. lia.
Qed.

Lemma iso_format_inv s :
  iso_format s = true ->
  exists y m d, 0 <= y <= 9999 /\ 0 <= m <= 99 /\ 0 <= d <= 99 /\ s = iso_string y m d.
Proof.
  intros H. destruct (iso_format_str10_inv s H) as (c0 & c1 & c2 & c3 & c5 & c6 & c8 & c9 & -> & H0 & H1 & H2 & H3 & H5 & H6 & H8 & H9).
  apply digit_char_val in H0 as [E0 B0], H1 as [E1 B1], H2 as [E2 B2], H3 as [E3 B3],
    H5 as [E5 B5], H6 as [E6 B6], H8 as [E8 B8], H9 as [E9 B9].
  rewrite <- E0, <- E1, <- E2, <- E3, <- E5, <- E6, <- E8, <- E9.
  set (a0 := digit_val c0) in *; set (a1 := digit_val c1) in *; set (a2 := digit_val c2) in *;
  set (a3 := digit_val c3) in *; set (a5 := digit_val c5) in *; set (a6 := digit_val c6) in *;
  set (a8 := digit_val c8) in *; set (a9 := digit_val c9) in *.
  clearbody a0 a1 a2 a3 a5 a6 a8 a9.
  exists (10 * (10 * (10 * (10 * 0 + a0) + a1) + a2) + a3),
    (10 * (10 * 0 + a5) + a6), (10 * (10 * 0 + a8) + a9).
  split; [lia|]. split; [lia|]. split; [lia|].
  rewrite iso_string_chars.
  destruct (four_digits_inv a0 a1 a2 a3 B0 B1 B2 B3) as (-> & -> & -> & ->).
  destruct (two_digits_inv a5 a6 B5 B6) as (-> & ->).
  destruct (two_digits_inv a8 a9 B8 B9) as (-> & ->).
  reflexivity.
Qed.

Lemma MakeDay_in_year y m d :
  1 <= m <= 12 -> MakeDay y (m - 1) d = DayFromYear y + month_start (InLeapYear y) (m - 1) + d - 1.
Proof.
  intros Hm. unfold MakeDay. rewrite (Z.div_small (m - 1) 12), (Z.mod_small (m - 1) 12) by lia.
  rewrite Z.add_0_r. reflexivity.
Qed.

Lemma table_fact y m d :
  1 <= m <= 12 -> 1 <= d <= 31 ->
  let dwy := month_start (InLeapYear y) (m - 1) + d - 1 in
  0 <= dwy < DaysInYear y
  /\ 0 <= MonthFromDWY (InLeapYear y) dwy <= 11
  /\ 1 <= DateFromDWY (InLeapYear y) dwy <= 31
  /\ ((MonthFromDWY (InLeapYear y) dwy + 1 =? m) && (DateFromDWY (InLeapYear y) dwy =? d)
      = (d <=? days_in_month y m)).
Proof.
  intros Hm Hd dwy.
  pose proof (table_entry_true (InLeapYear y) m d (InLeapYear_01 y) Hm Hd) as T.
  unfold table_entry in T. fold dwy in T. rewrite DaysInYear_leap, <- dim_leap_days_in_month.
  repeat (apply andb_prop in T as [T ?]).
  repeat match goal with E : (_ <=? _) = true |- _ => apply Z.leb_le in E
                       | E : (_ <? _) = true |- _ => apply Z.ltb_lt in E end.
  match goal with E : Bool.eqb _ _ = true |- _ => apply Bool.eqb_prop in E end.
  repeat split; try lia; assumption.
Qed.

Lemma MakeDay_year y m d :
  1 <= m <= 12 -> 1 <= d <= 31 -> YearFromDay (MakeDay y (m - 1) d) = y.
Proof.
  intros Hm Hd. apply YearFromDay_unique. rewrite MakeDay_in_year, DayFromYear_succ by lia.
  destruct (table_fact y m d Hm Hd) as [H _]. lia.
Qed.

Lemma DayFromYear_0 : DayFromYear 0 = -719528.
Proof. reflexivity. Qed.

Lemma DayFromYear_10000 : DayFromYear 10000 = 2932897.
Proof. reflexivity. Qed.

Lemma DayFromYear_le a b : a <= b -> DayFromYear a <= DayFromYear b.
Proof.
  intros H. destruct (Z.eq_dec a b) as [->|]; [lia|].
  pose proof (DayFromYear_lt a b ltac:(lia)). lia.
Qed.

Lemma Date_parse_iso y m d :
  0 <= y <= 9999 -> 1 <= m <= 12 -> 1 <= d <= 31 ->
  Date_parse (iso_string y m d) = Some (utc_midnight y m d).
Proof.
  intros Hy Hm Hd.
  destruct (digits_iso y m d Hy ltac:(lia) ltac:(lia)) as (F & Ey & Em & Ed).
  unfold Date_parse. rewrite F, Ey, Em, Ed.
  replace ((1 <=? m) && (m <=? 12) && (1 <=? d) && (d <=? 31)) with true
    by (symmetry; repeat (apply andb_true_intro; split); apply Z.leb_le; lia).
  cbv [negb]. unfold TimeClip, utc_midnight, MakeDate, msPerDay.
  rewrite MakeDay_in_year by lia.
  destruct (table_fact y m d Hm Hd) as [H _].
  pose proof (DayFromYear_le 0 y ltac:(lia)). pose proof (DayFromYear_le (y + 1) 10000 ltac:(lia)).
  rewrite DayFromYear_succ, DayFromYear_0, DayFromYear_10000 in *.
  destruct (Z.ltb_spec 8640000000000000
     (Z.abs ((DayFromYear y + month_start (InLeapYear y) (m - 1) + d - 1) * 86400000 + 0))); [lia|].
  reflexivity.
Qed.

Lemma Day_MakeDate D : Day (MakeDate D 0) = D.
Proof. unfold Day, MakeDate, msPerDay. rewrite Z.add_0_r. apply Z.div_mul. lia. Qed.

Lemma toISOString_slice D :
  0 <= YearFromDay D <= 9999 ->
  substring 0 10 (toISOString (MakeDate D 0)) =
  iso_string (YearFromDay D)
    (MonthFromDWY (InLeapYear (YearFromDay D)) (D - DayFromYear (YearFromDay D)) + 1)
    (DateFromDWY (InLeapYear (YearFromDay D)) (D - DayFromYear (YearFromDay D))).
Proof.
  intros Hy. unfold toISOString. rewrite Day_MakeDate. cbv zeta.
  replace ((0 <=? YearFromDay D) && (YearFromDay D <=? 9999)) with true
    by (symmetry; apply andb_true_intro; split; apply Z.leb_le; lia).
  reflexivity.
Qed.

Lemma iso_string_eqb y a b m d :
  0 <= y <= 9999 -> 0 <= a <= 99 -> 0 <= b <= 99 -> 0 <= m <= 99 -> 0 <= d <= 99 ->
  String.eqb (iso_string y a b) (iso_string y m d) = (a =? m) && (b =? d).
Proof.
  intros Hy Ha Hb Hm Hd. destruct (String.eqb_spec (iso_string y a b) (iso_string y m d)) as [E|E].
  - destruct (digits_iso y a b Hy Ha Hb) as (_ & _ & Ea & Eb).
    destruct (digits_iso y m d Hy Hm Hd) as (_ & _ & Em & Ed).
    rewrite E in Ea, Eb. rewrite Ea in Em. rewrite Eb in Ed. 
    rewrite Em, Ed, !Z.eqb_refl. reflexivity.
  - destruct (Z.eqb_spec a m), (Z.eqb_spec b d); subst; [congruence| reflexivity ..].
Qed.

Lemma validateISODate_iso now y m d :
  0 <= y <= 9999 -> 1 <= m <= 12 -> 1 <= d <= 31 ->
  validateISODate now (iso_string y m d) = (utc_midnight y m d <=? now) && real_date y m d.
Proof.
  intros Hy Hm Hd.
  destruct (digits_iso y m d Hy ltac:(lia) ltac:(lia)) as (F & _).
  unfold validateISODate. rewrite F, Date_parse_iso by lia. cbv [negb].
  f_equal.
  unfold utc_midnight. rewrite toISOString_slice by (rewrite MakeDay_year; lia).
  rewrite MakeDay_year by lia.
  replace (MakeDay y (m - 1) d - DayFromYear y) with (month_start (InLeapYear y) (m - 1) + d - 1)
    by (rewrite MakeDay_in_year; lia).
  destruct (table_fact y m d Hm Hd) as (_ & Hmon & Hdate & Heq).
  rewrite iso_string_eqb by lia. rewrite Heq.
  unfold real_date.
  replace ((1 <=? m) && (m <=? 12) && (1 <=? d)) with true
    by (symmetry; repeat (apply andb_true_intro; split); apply Z.leb_le; lia).
  reflexivity.
Qed.

Lemma days_in_month_le y m : days_in_month y m <= 31.
Proof. unfold days_in_month. repeat destruct (_ || _); repeat destruct (_ =? _); destruct (greg_leap y); lia. Qed.

(** C5 (amended): [validateISODate now s] holds exactly when [s] is the
    YYYY-MM-DD spelling of a real Gregorian calendar date with a year in
    0..9999 whose UTC midnight is not later than [now]. *)
Theorem validateISODate_spec now s :
  validateISODate now s = true <->
  exists y m d, 0 <= y <= 9999 /\ real_date y m d = true /\ s = iso_string y m d
                /\ utc_midnight y m d <= now.
Proof.
  split.
  - intros H.
    assert (F : iso_format s = true) by (unfold validateISODate in H; destruct (iso_format s); [reflexivity|discriminate]).
    destruct (iso_format_inv s F) as (y & m & d & Hy & Hm & Hd & ->).
    destruct (digits_iso y m d Hy Hm Hd) as (_ & Ey & Em & Ed).
    assert (R : (1 <=? m) && (m <=? 12) && (1 <=? d) && (d <=? 31) = true).
    { unfold validateISODate, Date_parse in H. rewrite F, Ey, Em, Ed in H. cbv [negb] in H.
      destruct ((1 <=? m) && (m <=? 12) && (1 <=? d) && (d <=? 31)); [reflexivity|discriminate]. }
    repeat (apply andb_prop in R as [R ?]). apply Z.leb_le in R.
    repeat match goal with E : (_ <=? _) = true |- _ => apply Z.leb_le in E end.
    rewrite validateISODate_iso in H by lia. apply andb_prop in H as [Hle Hreal].
    exists y, m, d. repeat split; try lia; try assumption.
  - intros (y & m & d & Hy & Hr & -> & Hn).
    pose proof Hr as Hr'. unfold real_date in Hr'.
    repeat (apply andb_prop in Hr' as [Hr' ?]). apply Z.leb_le in Hr'.
    repeat match goal with E : (_ <=? _) = true |- _ => apply Z.leb_le in E end.
    pose proof (days_in_month_le y m).
    rewrite validateISODate_iso by lia. rewrite Hr. apply Z.leb_le in Hn. rewrite Hn. reflexivity.
Qed.

(** C5 (counterexample): "2030-01-01" is in YYYY-MM-DD format and is a
    real calendar date, yet [validateISODate] rejects it at the present
    time of 2025-08-13T00:00:00Z, because it lies in the future. *)
Lemma validateISODate_future_counterexample :
  iso_string 2030 1 1 = "2030-01-01" /\ real_date 2030 1 1 = true
  /\ validateISODate 1755043200000 "2030-01-01" = false.
Proof. vm_compute. repeat split. Qed.

End DatesFacts.

(** ** The static dataset *)

Module DataFacts.
Import Validation.

Lemma validateISODate_2025_08_13 (now : Z) :
  (1755043200000 <= now)%Z -> Dates.validateISODate now "2025-08-13" = true.
Proof.
  intros H; unfold Dates.validateISODate.
  replace (Dates.iso_format "2025-08-13") with true by (vm_compute; reflexivity).
  replace (Dates.Date_parse "2025-08-13") with (Some 1755043200000%Z)
    by (vm_compute; reflexivity).
  replace (String.eqb (substring 0 10 (Dates.toISOString 1755043200000)) "2025-08-13")
    with true by (vm_compute; reflexivity).
  apply Z.leb_le in H; simpl; rewrite H; reflexivity.
Qed.

(** Evaluates a validation of the dataset in which the clock appears only
    through [validateISODate now], given its value on the dataset's date. *)
Ltac eval_with_date t Hd :=
  unfold validateProject, verified_errors;
  set (f := Dates.validateISODate t) in *; clearbody f;
  vm_compute; rewrite ?Hd; reflexivity.

Lemma per_project_errors_nil (now : Z) (index : nat) (ps : list jsval) :
  Forall (fun p => isValid (validateProject now p) = true) ps ->
  per_project_errors now index ps = [].
Proof.
  intros H; revert index; induction H as [|p ps Hp _ IH]; intros index; simpl;
    [reflexivity|].
  rewrite Hp, IH; reflexivity.
Qed.

(** C4: the dataset has exactly six records with pairwise distinct ids,
    and from 2025-08-13T00:00:00Z on every record passes [validateProject]
    and [validateProjects] reports the whole array valid with no error. *)
Theorem dataset_valid (now : Z) (Hnow : (1755043200000 <= now)%Z) :
  List.length Data.projects = 6%nat
  /\ NoDup (map id Data.projects)
  /\ Forall (fun p => isValid (validateProject now (project_to_js p)) = true) Data.projects
  /\ validateProjects now (map project_to_js Data.projects) = mkValidationResult true [].
Proof.
  pose proof (validateISODate_2025_08_13 now Hnow) as Hd.
  assert (Hall : Forall (fun p => isValid (validateProject now (project_to_js p)) = true)
                        Data.projects)
    by (repeat apply Forall_cons; try apply Forall_nil; eval_with_date now Hd).
  split; [reflexivity|split; [|split; [exact Hall|]]].
  - simpl; repeat (apply NoDup_cons; [simpl; intuition discriminate|]); apply NoDup_nil.
  - apply (proj2 (Forall_map project_to_js
                     (fun p => isValid (validateProject now p) = true) Data.projects)) in Hall.
    unfold validateProjects; rewrite (per_project_errors_nil now 0 _ Hall).
    vm_compute; reflexivity.
Qed.

Lemma dataset_valid_witness :
  (1755043200000 <= 1755043200000)%Z
  /\ validateProjects 1755043200000 (map project_to_js Data.projects)
     = mkValidationResult true [].
Proof.
  split; [reflexivity|].
  exact (proj2 (proj2 (proj2 (dataset_valid 1755043200000 (Z.le_refl _))))).
Defined.

End DataFacts.

(** ** More of the validation module *)

Module ValidationExtrasFacts.
Import Validation ValidationExtras ValidationFacts.
Local Open Scope list_scope.

Lemma validateProject_invalid_errors (now : Z) (p : jsval) :
  isValid (validateProject now p) = false -> errors (validateProject now p) <> [].
Proof.
  unfold validateProject; destruct (negb (truthy p) || negb (is_object p)).
  - intros _; discriminate.
  - intros H E; cbn [errors isValid] in *; rewrite E in H; discriminate.
Qed.

Lemma validateProject_valid_iff_nil (now : Z) (p : jsval) :
  isValid (validateProject now p) = true <-> errors (validateProject now p) = [].
Proof.
  split; [apply validateProject_valid_nil|].
  intros H; destruct (isValid (validateProject now p)) eqn:E; [reflexivity|].
  exfalso; exact (validateProject_invalid_errors now p E H).
Qed.

Lemma per_project_errors_nil_iff (now : Z) (i : nat) (ps : list jsval) :
  per_project_errors now i ps = [] <-> Forall (fun p => isValidProject now p = true) ps.
Proof.
  revert i; induction ps as [|p ps IH]; intros i; simpl.
  - split; auto.
  - unfold isValidProject at 1.
    destruct (isValid (validateProject now p)) eqn:E; simpl.
    + rewrite IH. split; [intros H; constructor; auto | intros H; inversion H; auto].
    + split; [|intros H; inversion H; congruence].
      intros H. apply app_eq_nil in H as [H _].
      apply map_eq_nil in H. exfalso; exact (validateProject_invalid_errors now p E H).
Qed.

Lemma validateProject_guard (now : Z) (p : jsval) :
  isValidProject now p = true -> truthy p = true /\ is_object p = true.
Proof.
  unfold isValidProject, validateProject.
  destruct (truthy p), (is_object p); simpl; try discriminate; auto.
Qed.

Lemma validateProject_object_errors (now : Z) (p : jsval) :
  truthy p = true -> is_object p = true ->
  errors (validateProject now p) =
     when (blank_string (get p "id"))
           (err "id" "Project id must be a non-empty string" (get p "id"))
      ++ when (blank_string (get p "title"))
           (err "title" "Project title must be a non-empty string" (get p "title"))
      ++ when (blank_string (get p "description"))
           (err "description" "Project description must be a non-empty string"
                (get p "description"))
      ++ when (negb (truthy (get p "impactCategory"))
               || negb (includes VALID_IMPACT_CATEGORIES (get p "impactCategory")))
           (err "impactCategory"
                ("Impact category must be one of: "
                 ++ String.concat ", " VALID_IMPACT_CATEGORIES)%string
                (get p "impactCategory"))
      ++ when (negb (truthy (get p "region"))
               || negb (includes VALID_REGIONS (get p "region")))
           (err "region" ("Region must be one of: " ++ String.concat ", " VALID_REGIONS)%string
                (get p "region"))
      ++ coordinate_errors (get p "coordinates")
      ++ (if is_undefined (get p "url") then []
          else when (match get p "url" with
                     | JStr s => negb (validateProjectUrl s)
                     | _ => true
                     end)
                 (err "url" "URL must be a valid HTTPS URL" (get p "url")))
      ++ verified_errors now p
      ++ when (negb (is_undefined (get p "source")) && not_trimmed_string (get p "source"))
           (err "source" "Source must be a non-empty string when provided"
                (get p "source"))
      ++ when (negb (is_undefined (get p "dateVerified"))
               && match get p "dateVerified" with
                  | JStr s => negb (Dates.validateISODate now s)
                  | _ => true
                  end)
           (err "dateVerified"
                "Date verified must be a valid ISO date (YYYY-MM-DD) when provided"
                (get p "dateVerified")).
Proof. intros H1 H2. unfold validateProject. rewrite H1, H2. reflexivity. Qed.

Lemma get_has_key (v : jsval) (k : string) : get v k <> JUndef -> has_key v k = true.
Proof.
  destruct v as [| | | | | |ps]; simpl; try (intros H; exfalso; apply H; reflexivity).
  destruct (find (fun kv => String.eqb (fst kv) k) ps) as [[k' x]|] eqn:E;
    [|intros H; exfalso; apply H; reflexivity].
  intros _. apply find_some in E as [Hin Heq]. apply existsb_exists. exists (k', x); auto.
Qed.

Lemma valid_project_id (now : Z) (p : jsval) :
  isValidProject now p = true ->
  truthy p && is_object p && has_key p "id" = true /\ exists s, get p "id" = JStr s.
Proof.
  intros H. pose proof (validateProject_guard now p H) as [Ht Ho].
  pose proof H as H'. unfold isValidProject in H'.
  apply validateProject_valid_nil in H'. rewrite (validateProject_object_errors now p Ht Ho) in H'.
  apply app_eq_nil in H' as [H1 _]. apply when_nil in H1.
  destruct (get p "id") as [| | | |s| |] eqn:E; try discriminate H1.
  rewrite Ht, Ho, get_has_key by congruence. split; [reflexivity | eauto].
Qed.

Lemma NoDup_snoc {A} (l : list A) (x : A) : NoDup l -> ~ In x l -> NoDup (l ++ [x]).
Proof.
  induction l as [|y l IH]; simpl; intros Hn Hx.
  - constructor; [auto|constructor].
  - inversion Hn; subst. constructor.
    + rewrite in_app_iff; simpl; intuition.
    + apply IH; auto.
Qed.

Lemma duplicate_errors_nil_iff (now : Z) (ids : list string) (i : nat) (ps : list jsval) :
  NoDup ids -> Forall (fun p => isValidProject now p = true) ps ->
  duplicate_errors ids i ps = [] <->
  NoDup (map JStr ids ++ map (fun p => get p "id") ps).
Proof.
  revert ids i; induction ps as [|p ps IH]; intros ids i Hids Hall; simpl.
  - rewrite app_nil_r. split; [intros _ | reflexivity].
    induction Hids as [|x l Hx _ IHl]; simpl; constructor; [|exact IHl].
    rewrite in_map_iff; intros [y [E Hy]]; injection E as ->; contradiction.
  - inversion Hall as [|? ? Hp Hrest]; subst.
    destruct (valid_project_id now p Hp) as [Hk [s Hs]]. rewrite Hk, Hs.
    destruct (existsb (String.eqb s) ids) eqn:Ex.
    + split; [discriminate|]. intros Hn. exfalso.
      apply NoDup_remove_2 in Hn. apply Hn, in_or_app; left.
      apply existsb_exists in Ex as [x [Hx Ex]]. apply String.eqb_eq in Ex; subst.
      apply in_map; exact Hx.
    + assert (Hni : ~ In s ids).
      { intros Hin. assert (existsb (String.eqb s) ids = true) by
          (apply existsb_exists; exists s; split; [exact Hin | apply String.eqb_refl]).
        congruence. }
      rewrite (IH (ids ++ [s]) (S i) (NoDup_snoc ids s Hids Hni) Hrest).
      rewrite map_app, <- app_assoc. reflexivity.
Qed.

Lemma validateProjects_valid_aux (now : Z) (ps : list jsval) :
  isValid (validateProjects now ps) = true <->
  ps <> [] /\ Forall (fun p => isValidProject now p = true) ps
  /\ NoDup (map (fun p => get p "id") ps).
Proof.
  unfold validateProjects; cbn [isValid].
  pose proof (per_project_errors_nil_iff now 0 ps) as Hp.
  split.
  - intros H. apply Nat.eqb_eq, length_zero_iff_nil in H.
    apply app_eq_nil in H as [H0 H]; apply app_eq_nil in H as [H1 H2].
    apply Hp in H1.
    apply (duplicate_errors_nil_iff now [] 0 ps (NoDup_nil _) H1) in H2.
    split; [|split; [exact H1 | exact H2]].
    intros ->; discriminate H0.
  - intros [Hne [Hall Hnd]]. apply Nat.eqb_eq, length_zero_iff_nil.
    rewrite (proj2 Hp Hall).
    rewrite (proj2 (duplicate_errors_nil_iff now [] 0 ps (NoDup_nil _) Hall) Hnd).
    destruct ps; [congruence | reflexivity].
Qed.


Lemma app_nil_iff {A} (l1 l2 : list A) : l1 ++ l2 = [] <-> l1 = [] /\ l2 = [].
Proof. split; [apply app_eq_nil | intros [-> ->]; reflexivity]. Qed.

Lemma when_nil_iff (b : bool) (e : ValidationError) : when b e = [] <-> b = false.
Proof. destruct b; simpl; split; congruence. Qed.

Lemma trim_empty : trim "" = "".
Proof. reflexivity. Qed.

Lemma blank_string_false_iff (v : jsval) :
  blank_string v = false <-> exists s, v = JStr s /\ String.length (trim s) <> 0%nat.
Proof.
  split.
  - destruct v; simpl; try discriminate. intros H. exists s; split; [reflexivity|].
    apply orb_false_iff in H as [_ H]. apply Nat.eqb_neq. exact H.
  - intros [s [-> Hs]]; simpl. apply orb_false_iff; split.
    + destruct (String.eqb_spec s ""); [subst; contradiction | reflexivity].
    + apply Nat.eqb_neq; exact Hs.
Qed.

Lemma enum_false_iff (l : list string) (v : jsval) : ~ In "" l ->
  negb (truthy v) || negb (includes l v) = false <-> exists s, v = JStr s /\ In s l.
Proof.
  intros Hl; split.
  - intros H. apply orb_false_iff in H as [_ H]. apply negb_false_iff in H.
    destruct v; simpl in H; try discriminate. exists s; split; [reflexivity|].
    apply existsb_exists in H as [x [Hx E]]. apply String.eqb_eq in E. subst; exact Hx.
  - intros [s [-> Hs]]; simpl. apply orb_false_iff; split.
    + destruct (String.eqb_spec s ""); [subst; contradiction | reflexivity].
    + apply negb_false_iff, existsb_exists. exists s; split; [exact Hs | apply String.eqb_refl].
Qed.

Lemma url_errors_nil_iff (p : jsval) :
  (if is_undefined (get p "url") then []
   else when (match get p "url" with
              | JStr s => negb (validateProjectUrl s)
              | _ => true
              end)
          (err "url" "URL must be a valid HTTPS URL" (get p "url"))) = [] <->
  get p "url" = JUndef \/ exists u, get p "url" = JStr u /\ validateProjectUrl u = true.
Proof.
  destruct (get p "url"); simpl;
    try (split; [discriminate | intros [H|[u [H _]]]; discriminate H]).
  - split; auto.
  - destruct (validateProjectUrl s) eqn:E; simpl; split.
    + intros _; right; eauto.
    + reflexivity.
    + discriminate.
    + intros [H|[u [H1 H2]]]; [discriminate H|injection H1 as <-; congruence].
Qed.

Lemma validateISODate_empty (now : Z) : Dates.validateISODate now "" = false.
Proof. reflexivity. Qed.

Lemma verified_errors_nil_iff (now : Z) (p : jsval) :
  (exists s, get p "source" = JStr s /\ String.length (trim s) <> 0%nat)
  \/ get p "source" = JUndef ->
  (exists s, get p "dateVerified" = JStr s /\ Dates.validateISODate now s = true)
  \/ get p "dateVerified" = JUndef ->
  verified_errors now p = [] <->
  get p "verified" = JUndef \/ get p "verified" = JBool false
  \/ (get p "verified" = JBool true /\ truthy (get p "url") = true
      /\ get p "source" <> JUndef /\ get p "dateVerified" <> JUndef).
Proof.
  intros Hsrc Hdate. unfold verified_errors.
  destruct (get p "verified") as [| |[|]| | | |] eqn:Ev; simpl;
    try (split; [discriminate | intros [H|[H|[H _]]]; discriminate H]).
  - split; auto.
  - rewrite !app_nil_iff, !when_nil_iff, negb_false_iff, orb_false_iff, negb_false_iff.
    split.
    + intros [Hu [Hs [Hd _]]]. right; right; split; [reflexivity|split; [exact Hu|split]].
      * intros E; rewrite E in Hs; discriminate.
      * intros E; rewrite E in Hd; discriminate.
    + intros [H|[H|[_ [Hu [Hs Hd]]]]]; try discriminate H.
      split; [exact Hu|split].
      * apply blank_string_false_iff. destruct Hsrc; [assumption|contradiction].
      * destruct Hdate as [[s [Es Hv]]|]; [|contradiction]. rewrite Es, Hv. split; [|reflexivity].
        simpl. destruct (String.eqb_spec s ""); [subst; rewrite validateISODate_empty in Hv; discriminate|reflexivity].
  - split; auto.
Qed.

Lemma source_errors_nil_iff (p : jsval) :
  negb (is_undefined (get p "source")) && not_trimmed_string (get p "source") = false <->
  (exists s, get p "source" = JStr s /\ String.length (trim s) <> 0%nat)
  \/ get p "source" = JUndef.
Proof.
  destruct (get p "source"); simpl;
    try (split; [discriminate | intros [[s [H _]]|H]; discriminate H]).
  - split; auto.
  - rewrite Nat.eqb_neq. split.
    + intros H; left; eauto.
    + intros [[s' [H1 H2]]|H]; [injection H1 as <-; exact H2|discriminate].
Qed.

Lemma date_errors_nil_iff (now : Z) (p : jsval) :
  negb (is_undefined (get p "dateVerified"))
  && match get p "dateVerified" with
     | JStr s => negb (Dates.validateISODate now s)
     | _ => true
     end = false <->
  (exists s, get p "dateVerified" = JStr s /\ Dates.validateISODate now s = true)
  \/ get p "dateVerified" = JUndef.
Proof.
  destruct (get p "dateVerified"); simpl;
    try (split; [discriminate | intros [[s [H _]]|H]; discriminate H]).
  - split; auto.
  - rewrite negb_false_iff. split.
    + intros H; left; eauto.
    + intros [[s' [H1 H2]]|H]; [injection H1 as <-; exact H2|discriminate].
Qed.



Lemma region_iff (v : jsval) :
  negb (truthy v) || negb (includes VALID_REGIONS v) = false <-> v = JStr "north-america".
Proof.
  rewrite (enum_false_iff VALID_REGIONS v) by (simpl; intuition discriminate).
  simpl; split; [intros [s [-> [<-|[]]]]; reflexivity | intros ->; eauto].
Qed.

Lemma category_iff (v : jsval) :
  negb (truthy v) || negb (includes VALID_IMPACT_CATEGORIES v) = false <->
  exists c, v = JStr c /\ In c VALID_IMPACT_CATEGORIES.
Proof. apply enum_false_iff; simpl; intuition discriminate. Qed.

Lemma get_JObj (v : jsval) (k : string) : get v k <> JUndef -> exists o, v = JObj o.
Proof. destruct v; simpl; intros H; try (exfalso; apply H; reflexivity); eauto. Qed.

(** X2: [isValidProject] holds exactly for an object whose [id], [title]
    and [description] are strings with non-blank trimmed content, whose
    category is one of the four valid ones, whose region is
    ['north-america'], whose coordinates pass the coordinate checks, whose
    [url] is absent or an HTTPS URL, whose [verified] is absent, [false],
    or [true] together with a truthy [url] and a present [source] and
    [dateVerified], whose [source] is absent or non-blank, and whose
    [dateVerified] is absent or accepted by [validateISODate]. *)
Theorem isValidProject_iff (now : Z) (p : jsval) :
  isValidProject now p = true <->
  (exists o, p = JObj o)
  /\ (exists s, get p "id" = JStr s /\ String.length (trim s) <> 0%nat)
  /\ (exists s, get p "title" = JStr s /\ String.length (trim s) <> 0%nat)
  /\ (exists s, get p "description" = JStr s /\ String.length (trim s) <> 0%nat)
  /\ (exists c, get p "impactCategory" = JStr c /\ In c VALID_IMPACT_CATEGORIES)
  /\ get p "region" = JStr "north-america"
  /\ coordinate_errors (get p "coordinates") = []
  /\ (get p "url" = JUndef \/ exists u, get p "url" = JStr u /\ validateProjectUrl u = true)
  /\ (get p "verified" = JUndef \/ get p "verified" = JBool false
      \/ (get p "verified" = JBool true /\ truthy (get p "url") = true
          /\ get p "source" <> JUndef /\ get p "dateVerified" <> JUndef))
  /\ ((exists s, get p "source" = JStr s /\ String.length (trim s) <> 0%nat)
      \/ get p "source" = JUndef)
  /\ ((exists s, get p "dateVerified" = JStr s /\ Dates.validateISODate now s = true)
      \/ get p "dateVerified" = JUndef).
Proof.
  split.
  - intros H. destruct (validateProject_guard now p H) as [Ht Ho].
    unfold isValidProject in H. apply validateProject_valid_nil in H.
    rewrite (validateProject_object_errors now p Ht Ho) in H.
    rewrite !app_nil_iff, !when_nil_iff in H.
    destruct H as [Hid [Hti [Hde [Hca [Hre [Hco [Hur [Hve [Hso Hda]]]]]]]]].
    apply (proj1 (blank_string_false_iff _)) in Hid, Hti, Hde.
    apply category_iff in Hca. apply region_iff in Hre. apply url_errors_nil_iff in Hur.
    assert (Hso' := proj1 (source_errors_nil_iff p) Hso).
    assert (Hda' := proj1 (date_errors_nil_iff now p) Hda).
    apply (verified_errors_nil_iff now p Hso' Hda') in Hve.
    split; [|tauto]. destruct Hid as [s [Hs _]]. apply (get_JObj p "id"). congruence.
  - intros [[o ->] [Hid [Hti [Hde [Hca [Hre [Hco [Hur [Hve [Hso Hda]]]]]]]]]].
    unfold isValidProject. apply validateProject_valid_iff_nil.
    rewrite (validateProject_object_errors now (JObj o) eq_refl eq_refl).
    rewrite !app_nil_iff, !when_nil_iff.
    repeat split.
    + apply blank_string_false_iff; exact Hid.
    + apply blank_string_false_iff; exact Hti.
    + apply blank_string_false_iff; exact Hde.
    + apply category_iff; exact Hca.
    + apply region_iff; exact Hre.
    + exact Hco.
    + apply url_errors_nil_iff; exact Hur.
    + apply verified_errors_nil_iff; assumption.
    + apply source_errors_nil_iff; exact Hso.
    + apply date_errors_nil_iff; exact Hda.
Qed.

Lemma coord_out_JNum_false (n : num) (lo hi : Q) :
  coord_out (JNum n) lo hi = false <->
  n = NNaN \/ exists q, n = NFin q /\ (lo <= q)%Q /\ (q <= hi)%Q.
Proof.
  destruct n as [q| |[|]]; simpl.
  - rewrite orb_false_iff, !negb_false_iff, !Qle_bool_iff. split.
    + intros [H1 H2]; right; exists q; auto.
    + intros [H|[q' [H1 H2]]]; [discriminate|injection H1 as <-; exact H2].
  - split; auto.
  - split; [discriminate|intros [H|[q [H _]]]; discriminate H].
  - split; [discriminate|intros [H|[q [H _]]]; discriminate H].
Qed.

(** X3: the coordinate checks of [validateProject] report nothing
    exactly for an array of two numbers whose longitude is NaN or in
    [-180, 180] and whose latitude is NaN or in [-90, 90]: NaN passes,
    the infinities do not. *)
Theorem coordinate_errors_nil_iff (c : jsval) :
  coordinate_errors c = [] <->
  exists lng lat, c = JArr [JNum lng; JNum lat]
  /\ (lng = NNaN \/ exists q, lng = NFin q /\ (-180 <= q <= 180)%Q)
  /\ (lat = NNaN \/ exists q, lat = NFin q /\ (-90 <= q <= 90)%Q).
Proof.
  split.
  - destruct c as [| | | | |l|]; simpl; try discriminate.
    destruct l as [|x [|y [|z l]]]; simpl; try discriminate.
    rewrite app_nil_iff, !when_nil_iff. intros [Hx Hy].
    destruct x as [| | |n| | |]; try discriminate Hx.
    destruct y as [| | |m| | |]; try discriminate Hy.
    apply coord_out_JNum_false in Hx, Hy. exists n, m; auto.
  - intros [n [m [-> [Hn Hm]]]]; unfold coordinate_errors; cbn [List.length Nat.eqb negb nth].
    rewrite (proj2 (coord_out_JNum_false n _ _) Hn), (proj2 (coord_out_JNum_false m _ _) Hm).
    reflexivity.
Qed.


Lemma num_ge_le_iff (n : num) (lo hi : Q) :
  num_ge n lo && num_le n hi = true <-> exists q, n = NFin q /\ (lo <= q <= hi)%Q.
Proof.
  destruct n as [q| |[|]]; simpl.
  - rewrite andb_true_iff, !Qle_bool_iff. split.
    + intros [H1 H2]; exists q; auto.
    + intros [q' [H1 H2]]; injection H1 as <-; exact H2.
  - split; [discriminate | intros [q [H _]]; discriminate H].
  - split; [discriminate | intros [q [H _]]; discriminate H].
  - split; [discriminate | intros [q [H _]]; discriminate H].
Qed.

Lemma canadian_iff (lng lat : num) :
  validateCanadianCoordinates lng lat = true <->
  (exists q, lng = NFin q /\ (minLng <= q <= maxLng)%Q)
  /\ (exists r, lat = NFin r /\ (minLat <= r <= maxLat)%Q).
Proof.
  unfold validateCanadianCoordinates. rewrite <- andb_assoc, andb_true_iff.
  rewrite num_ge_le_iff, num_ge_le_iff. reflexivity.
Qed.

(** X4: [validateProjectForDisplay] accepts a project exactly when it
    passes [isValidProject], its title has at least 5 characters, its
    description at least 20, and its coordinates are two finite numbers
    inside the Canadian bounding box (bounds included). *)
Theorem validateProjectForDisplay_iff (now : Z) (project : Project) :
  validateProjectForDisplay now project = true <->
  isValidProject now (project_to_js project) = true
  /\ (5 <= String.length (title project))%nat
  /\ (20 <= String.length (description project))%nat
  /\ exists lng lat, coordinates project = JArr [JNum (NFin lng); JNum (NFin lat)]
     /\ (minLng <= lng <= maxLng)%Q /\ (minLat <= lat <= maxLat)%Q.
Proof.
  unfold validateProjectForDisplay.
  destruct (isValidProject now (project_to_js project)); cbv [negb].
  2:{ split; [discriminate | intros [H _]; discriminate H]. }
  rewrite !andb_true_iff, !Nat.leb_le. split.
  - intros [[H1 H2] H3]. split; [reflexivity|split; [exact H1|split; [exact H2|]]].
    destruct (coordinates project) as [| | | | |[|[| | |n| | |] [|[| | |m| | |] [|]]]|];
      try discriminate H3.
    apply canadian_iff in H3 as [[q [-> Hq]] [r [-> Hr]]]. exists q, r; auto.
  - intros [_ [H1 [H2 [q [r [-> [Hq Hr]]]]]]]. split; [split; assumption|].
    apply canadian_iff; split; [exists q | exists r]; auto.
Qed.

(** X1: [validateProjects] returns [isValid = true] exactly when the
    array is non-empty, every element passes [isValidProject], and the
    elements' [id] values are pairwise distinct. *)
Theorem validateProjects_valid_iff (now : Z) (projects : list jsval) :
  isValid (validateProjects now projects) = true <->
  projects <> [] /\ Forall (fun p => isValidProject now p = true) projects
  /\ NoDup (map (fun p => get p "id") projects).
Proof. apply validateProjects_valid_aux. Qed.


Lemma safeParse_try_message (now : Z) (data : jsval) (e : Errors.JsError) :
  safeParseProjects_try now data = Throws e -> Errors.err_kind e = Errors.KOtherError.
Proof.
  unfold safeParseProjects_try. destruct data; try (intros H; injection H as <-; reflexivity).
  destruct (negb (isValid (validateProjects now elems))); [|discriminate].
  intros H; injection H as <-; reflexivity.
Qed.

(** X5: [safeParseProjects] returns its input array exactly when
    [validateProjects] accepts it; everything it throws is a plain
    [Error] whose message starts with 'Invalid project data: ', and a
    non-array input gives 'Invalid project data: Data is not an array'. *)
Theorem safeParseProjects_spec (now : Z) (data : jsval) :
  (forall r, safeParseProjects now data = Returns r <->
     data = JArr r /\ r <> [] /\ Forall (fun p => isValidProject now p = true) r
     /\ NoDup (map (fun p => get p "id") r))
  /\ (forall e, safeParseProjects now data = Throws e ->
        Errors.err_kind e = Errors.KOtherError
        /\ exists m, Errors.err_message e = ("Invalid project data: " ++ m)%string)
  /\ ((forall l, data <> JArr l) ->
       safeParseProjects now data
       = Throws (new_Error "Invalid project data: Data is not an array")).
Proof.
  split; [|split].
  - intros r. unfold safeParseProjects, safeParseProjects_try.
    destruct data as [| | | | |ps|];
      try (split; [discriminate | intros [H _]; discriminate H]).
    pose proof (validateProjects_valid_aux now ps) as Hv.
    destruct (isValid (validateProjects now ps)); cbv [negb].
    + split.
      * intros H; injection H as <-. split; [reflexivity | apply Hv; reflexivity].
      * intros [H _]; injection H as <-; reflexivity.
    + split; [discriminate|]. intros [H Hr]; injection H as <-. apply Hv in Hr; discriminate.
  - intros e. unfold safeParseProjects.
    destruct (safeParseProjects_try now data); [discriminate|].
    intros H; injection H as <-. split; [reflexivity|]. eexists; reflexivity.
  - intros H. unfold safeParseProjects, safeParseProjects_try.
    destruct data; try reflexivity. exfalso; exact (H elems eq_refl).
Qed.

(** The loop with no error limit. *)
Lemma push_limited_inf (l errs : list ValidationError) :
  push_limited (NInf true) l errs = errs ++ l.
Proof.
  unfold push_limited. revert errs; induction l as [|e l IH]; intros errs; simpl.
  - rewrite app_nil_r; reflexivity.
  - rewrite IH, <- app_assoc; reflexivity.
Qed.

Lemma app_nil_cons_iff (errs l : list ValidationError) :
  l <> [] -> errs ++ l = [] <-> False.
Proof. intros Hl; split; [intros H; apply app_eq_nil in H; tauto | contradiction]. Qed.

Lemma isValidProject_nonobject (now : Z) (p : jsval) :
  negb (truthy p) || negb (is_object p) = true -> isValidProject now p = false.
Proof. intros H; unfold isValidProject, validateProject; rewrite H; reflexivity. Qed.

Lemma optimized_loop_inf (now : Z) (i : nat) (ps : list jsval)
  (errs : list ValidationError) (cnt : nat) :
  (fst (optimized_loop now (NInf true) false i ps errs cnt) = []
   <-> errs = [] /\ forallb (isValidProject now) ps = true)
  /\ snd (optimized_loop now (NInf true) false i ps errs cnt) = (cnt + List.length ps)%nat.
Proof.
  revert i errs cnt; induction ps as [|p ps IH]; intros i errs cnt.
  - simpl; split; [tauto | lia].
  - cbn [optimized_loop len_lt negb forallb].
    destruct (negb (truthy p) || negb (is_object p)) eqn:Hobj.
    + rewrite (isValidProject_nonobject now p Hobj).
      destruct (IH (S i) (errs ++ [err ("projects[" ++ nat_to_string i ++ "]")
                                   "Project must be an object" p]) (S cnt)) as [H1 H2].
      rewrite H1, H2. cbn [List.length]. split; [|lia].
      rewrite app_nil_cons_iff by discriminate. simpl.
      split; [intros [[] _] | intros [_ H]; discriminate H].
    + cbv [negb].
      destruct (isValidProject now p) eqn:Hv; unfold isValidProject in Hv; rewrite Hv.
      * destruct (IH (S i) errs (S cnt)) as [H1 H2]. rewrite H1, H2. cbn [List.length].
        split; [reflexivity | lia].
      * rewrite push_limited_inf.
        destruct (IH (S i) (errs ++ map (reindex i) (errors (validateProject now p))) (S cnt))
          as [H1 H2].
        rewrite H1, H2. cbn [List.length]. split; [|lia].
        rewrite app_nil_cons_iff; [simpl; split; [intros [[] _] | intros [_ H]; discriminate H]|].
        intros E; apply map_eq_nil in E. exact (validateProject_invalid_errors now p Hv E).
Qed.

(** X6: with the default options, [validateProjectsOptimized] is valid
    exactly when every element passes [isValidProject] (so an empty array
    is valid and duplicate ids are not reported), and it counts every
    element. *)
Theorem validateProjectsOptimized_defaults (now : Z) (projects : list jsval) :
  let '(result, validatedCount) :=
    validateProjectsOptimized now projects (mkOptimizedOptions None None) in
  isValid result = forallb (isValidProject now) projects
  /\ validatedCount = List.length projects.
Proof.
  unfold validateProjectsOptimized; cbn [maxErrors_opt skipExpensiveChecks_opt].
  destruct (optimized_loop_inf now 0 projects [] 0) as [H1 H2].
  destruct (optimized_loop now (NInf true) false 0 projects [] 0) as [errs c].
  cbn [fst snd isValid] in *. split; [|exact H2].
  destruct (forallb (isValidProject now) projects).
  - apply Nat.eqb_eq, length_zero_iff_nil, H1; auto.
  - apply Nat.eqb_neq. intros E. apply length_zero_iff_nil, H1 in E. destruct E; discriminate.
Qed.

Lemma len_lt_nat (k n : nat) : len_lt k (NFin (inject_Z (Z.of_nat n))) = (k <? n)%nat.
Proof.
  unfold len_lt. destruct (Nat.ltb_spec k n) as [H|H].
  - apply negb_true_iff. apply not_true_iff_false. rewrite Qle_bool_iff, <- Zle_Qle. lia.
  - apply negb_false_iff. rewrite Qle_bool_iff, <- Zle_Qle. lia.
Qed.

Lemma push_limited_bound (n : nat) (l errs : list ValidationError) :
  (List.length errs <= n)%nat ->
  (List.length (push_limited (NFin (inject_Z (Z.of_nat n))) l errs) <= n)%nat.
Proof.
  unfold push_limited. revert errs; induction l as [|e l IH]; intros errs H; cbn [fold_left]; [exact H|].
  apply IH. rewrite len_lt_nat. destruct (Nat.ltb_spec (List.length errs) n); [|exact H].
  rewrite length_app; simpl; lia.
Qed.

Lemma optimized_loop_bound (now : Z) (n : nat) (skip : bool) (i : nat) (ps : list jsval)
  (errs : list ValidationError) (cnt : nat) :
  (List.length errs <= n)%nat ->
  (List.length (fst (optimized_loop now (NFin (inject_Z (Z.of_nat n))) skip i ps errs cnt)) <= n)%nat
  /\ (snd (optimized_loop now (NFin (inject_Z (Z.of_nat n))) skip i ps errs cnt)
      <= cnt + List.length ps)%nat.
Proof.
  revert i errs cnt; induction ps as [|p ps IH]; intros i errs cnt H.
  - simpl; split; [exact H | lia].
  - cbn [optimized_loop]. rewrite len_lt_nat.
    destruct (Nat.ltb_spec (List.length errs) n) as [Hlt|Hge].
    + cbn [negb].
      destruct (negb (truthy p) || negb (is_object p)) eqn:Hobj.
      * edestruct (IH (S i) (errs ++ [err ("projects[" ++ nat_to_string i ++ "]")
                                     "Project must be an object" p]) (S cnt)) as [A B];
          [rewrite length_app; simpl; lia|].
        split; [exact A | cbn [List.length]; lia].
      * destruct skip; cbn [negb].
        -- destruct (IH (S i) errs (S cnt) H) as [A B]; split; [exact A | cbn [List.length]; lia].
        -- destruct (isValid (validateProject now p)); cbn [negb].
           ++ destruct (IH (S i) errs (S cnt) H) as [A B]; split; [exact A | cbn [List.length]; lia].
           ++ destruct (IH (S i) _ (S cnt)
                          (push_limited_bound n (map (reindex i) (errors (validateProject now p)))
                             errs H)) as [A B].
              split; [exact A | cbn [List.length]; lia].
    + simpl; split; [exact H | lia].
Qed.

(** X7: with [maxErrors] a natural number [n], [validateProjectsOptimized]
    returns at most [n] errors and counts at most the array's length,
    whatever [skipExpensiveChecks] is. *)
Theorem validateProjectsOptimized_maxErrors (now : Z) (projects : list jsval) (n : nat)
  (skip : option bool) :
  let '(result, validatedCount) :=
    validateProjectsOptimized now projects
      (mkOptimizedOptions (Some (NFin (inject_Z (Z.of_nat n)))) skip) in
  (List.length (errors result) <= n)%nat /\ (validatedCount <= List.length projects)%nat.
Proof.
  unfold validateProjectsOptimized; cbn [maxErrors_opt skipExpensiveChecks_opt].
  set (b := match skip with Some b => b | None => false end).
  destruct (optimized_loop_bound now n b 0 projects [] 0 (Nat.le_0_l n)) as [A B].
  destruct (optimized_loop now (NFin (inject_Z (Z.of_nat n))) b 0 projects [] 0) as [errs c].
  exact (conj A B).
Qed.

(** X8: with a [maxErrors] of 0 or less, NaN or minus infinity,
    [validateProjectsOptimized] validates nothing and reports a valid
    result with no errors, whatever the array holds. *)
Theorem validateProjectsOptimized_no_budget (now : Z) (projects : list jsval) (m : num)
  (skip : option bool)
  (Hm : m = NNaN \/ m = NInf false \/ exists q, m = NFin q /\ (q <= 0)%Q) :
  validateProjectsOptimized now projects (mkOptimizedOptions (Some m) skip)
  = (mkValidationResult true [], 0%nat).
Proof.
  assert (H0 : len_lt 0 m = false).
  { destruct Hm as [->|[->|[q [-> Hq]]]]; try reflexivity.
    simpl. apply negb_false_iff, Qle_bool_iff. exact Hq. }
  unfold validateProjectsOptimized; cbn [maxErrors_opt skipExpensiveChecks_opt].
  destruct projects as [|p ps]; [reflexivity|].
  cbn [optimized_loop List.length]. rewrite H0. reflexivity.
Qed.

Lemma validateProjectsOptimized_no_budget_witness :
  (NFin 0 = NNaN \/ NFin 0 = NInf false \/ exists q, NFin 0 = NFin q /\ (q <= 0)%Q)
  /\ validateProjectsOptimized 0 [JNull; JNum (NFin 1)]
       (mkOptimizedOptions (Some (NFin 0)) None)
     = (mkValidationResult true [], 0%nat).
Proof.
  assert (H : NFin 0 = NNaN \/ NFin 0 = NInf false \/ exists q, NFin 0 = NFin q /\ (q <= 0)%Q)
    by (right; right; exists 0%Q; split; [reflexivity | apply Qle_refl]).
  split; [exact H|].
  exact (validateProjectsOptimized_no_budget 0 [JNull; JNum (NFin 1)] (NFin 0) None H).
Defined.

Lemma optimized_loop_skip (now : Z) (i : nat) (ps : list jsval)
  (errs : list ValidationError) (cnt : nat) :
  List.length (fst (optimized_loop now (NInf true) true i ps errs cnt))
  = (List.length errs + List.length (filter (fun p => negb (truthy p && is_object p)) ps))%nat
  /\ snd (optimized_loop now (NInf true) true i ps errs cnt) = (cnt + List.length ps)%nat.
Proof.
  revert i errs cnt; induction ps as [|p ps IH]; intros i errs cnt.
  - simpl; split; lia.
  - cbn [optimized_loop len_lt filter].
    destruct (truthy p); destruct (is_object p); cbn [negb orb andb];
      match goal with
      | |- context [optimized_loop _ _ _ _ _ (errs ++ ?x) _] =>
          destruct (IH (S i) (errs ++ x) (S cnt)) as [A B]; rewrite A, B, length_app;
          simpl; split; lia
      | _ => destruct (IH (S i) errs (S cnt)) as [A B]; rewrite A, B; simpl; split; lia
      end.
Qed.

(** X9: with [skipExpensiveChecks] set, [validateProjectsOptimized] only
    checks that each element is a truthy object (arrays pass): the result
    is valid exactly when all are, there is one error per other element,
    and every element is counted. *)
Theorem validateProjectsOptimized_skip (now : Z) (projects : list jsval) :
  let '(result, validatedCount) :=
    validateProjectsOptimized now projects (mkOptimizedOptions None (Some true)) in
  isValid result = forallb (fun p => truthy p && is_object p) projects
  /\ List.length (errors result)
     = List.length (filter (fun p => negb (truthy p && is_object p)) projects)
  /\ validatedCount = List.length projects.
Proof.
  unfold validateProjectsOptimized; cbn [maxErrors_opt skipExpensiveChecks_opt].
  destruct (optimized_loop_skip now 0 projects [] 0) as [A B].
  destruct (optimized_loop now (NInf true) true 0 projects [] 0) as [errs c].
  cbn [fst snd isValid errors] in *. split; [|split; [exact A | exact B]].
  rewrite A. simpl. clear A B.
  induction projects as [|p ps IH]; [reflexivity|]. simpl.
  destruct (truthy p && is_object p); simpl; [exact IH | reflexivity].
Qed.

End ValidationExtrasFacts.

(** ** Field display names *)

Module FieldNameFacts.
Import Validation ValidationExtras.

Lemma substring_full (s : string) : substring 0 (String.length s) s = s.
Proof. induction s as [|c s IH]; simpl; [reflexivity | rewrite IH; reflexivity]. Qed.

Lemma prefix_empty (s : string) : String.prefix "" s = true.
Proof. destruct s; reflexivity. Qed.

Lemma to_uint_nonnil (n : nat) : Nat.to_uint n <> Decimal.Nil.
Proof.
  intros H. pose proof (DecimalNat.Unsigned.of_to n) as E. rewrite H in E.
  simpl in E. subst n. discriminate H.
Qed.

Lemma take_digits_uint (u : Decimal.uint) (r : string) :
  take_digits (NilEmpty.string_of_uint u ++ String "]" r)
  = (NilEmpty.string_of_uint u, String "]" r).
Proof. induction u; simpl; try rewrite IHu; reflexivity. Qed.

Lemma string_of_uint_length (u : Decimal.uint) :
  u <> Decimal.Nil -> (0 < String.length (NilEmpty.string_of_uint u))%nat.
Proof. destruct u; simpl; try lia. intros H; contradiction H; reflexivity. Qed.

Lemma strip_reindex (index : nat) (e : ValidationError) :
  strip_projects_prefix (field (reindex index e)) = field e.
Proof.
  unfold reindex, strip_projects_prefix, nat_to_string; cbn [field].
  set (u := Nat.to_uint index). assert (Hu : u <> Decimal.Nil) by apply to_uint_nonnil.
  clearbody u. set (f := field e).
  simpl String.prefix. cbv iota.
  replace (String.length ("projects[" ++ NilEmpty.string_of_uint u ++ "]." ++ f) - 9)%nat
    with (String.length (NilEmpty.string_of_uint u ++ "]." ++ f)) by (simpl; lia).
  simpl substring at 1. rewrite substring_full.
  change ("]." ++ f) with (String "]" (String "." f)).
  rewrite take_digits_uint.
  rewrite (proj2 (Nat.ltb_lt _ _) (string_of_uint_length u Hu)). simpl.
  rewrite !prefix_empty, Nat.sub_0_r. apply substring_full.
Qed.

(** X10: the display name [extractUserFriendlyErrors] gives to a field
    that [validateProjects] prefixed with 'projects[i].' is the display
    name of the unprefixed field, for a field that has no such prefix of
    its own. *)
Theorem fieldDisplayName_reindex (index : nat) (e : ValidationError)
  (H : strip_projects_prefix (field e) = field e) :
  fieldDisplayName (field (reindex index e)) = fieldDisplayName (field e).
Proof. unfold fieldDisplayName. rewrite strip_reindex, H. reflexivity. Qed.

Lemma fieldDisplayName_reindex_witness :
  strip_projects_prefix "coordinates[0]" = "coordinates[0]"
  /\ fieldDisplayName (field (reindex 12 (err "coordinates[0]" "m" JNull))) = Some "Coordinates".
Proof.
  split; [reflexivity|].
  rewrite (fieldDisplayName_reindex 12 (err "coordinates[0]" "m" JNull) eq_refl).
  reflexivity.
Defined.

End FieldNameFacts.

(** ** [truncateText] *)

Module HelpersExtrasFacts.
Import HelpersExtras.
Open Scope Z_scope.

Lemma substring_length (m : nat) (s : string) :
  (m <= String.length s)%nat -> String.length (substring 0 m s) = m.
Proof.
  revert m; induction s as [|c s IH]; intros m H; destruct m; simpl in *; try lia.
  rewrite IH; lia.
Qed.

Lemma substring_substring (k m : nat) (s : string) :
  (k <= m)%nat -> substring 0 k (substring 0 m s) = substring 0 k s.
Proof.
  revert k m; induction s as [|c s IH]; intros k m H; destruct k, m; simpl; try reflexivity; try lia.
  rewrite IH by lia; reflexivity.
Qed.

Lemma js_slice_prefix (s : string) (e : Z) :
  0 <= e -> js_slice s 0 e = substring 0 (Z.to_nat (Z.min e (Z.of_nat (String.length s)))) s.
Proof.
  intros He. unfold js_slice.
  destruct (e <? 0) eqn:E; [apply Z.ltb_lt in E; lia|].
  replace (0 <? 0) with false by reflexivity.
  f_equal; lia.
Qed.

Lemma last_space_range (s : string) (i acc : Z) :
  last_space_from s i acc = acc
  \/ (i <= last_space_from s i acc < i + Z.of_nat (String.length s)).
Proof.
  revert i acc; induction s as [|c s IH]; intros i acc; simpl; [auto|].
  destruct (IH (i + 1) (if Ascii.eqb c " "%char then i else acc)) as [H|H].
  - rewrite H. destruct (Ascii.eqb c " "%char); [right; lia | left; reflexivity].
  - right; lia.
Qed.

(** X11: for a non-negative [maxLength], [truncateText] returns a text of
    at most [maxLength] characters unchanged, and shortens a longer one
    to its first [k] characters followed by '...', where
    [maxLength - 10 < k <= maxLength]. *)
Theorem truncateText_shape (text : string) (maxLength : Z) (H : 0 <= maxLength) :
  (Z.of_nat (String.length text) <= maxLength -> truncateText text maxLength = text)
  /\ (maxLength < Z.of_nat (String.length text) ->
      exists k : nat, maxLength - 10 < Z.of_nat k <= maxLength
        /\ truncateText text maxLength = substring 0 k text ++ "...").
Proof.
  split.
  - intros Hle; unfold truncateText. rewrite (proj2 (Z.leb_le _ _) Hle). reflexivity.
  - intros Hlt; unfold truncateText. rewrite (proj2 (Z.leb_gt _ _) Hlt).
    rewrite (js_slice_prefix text maxLength H).
    rewrite Z.min_l by lia.
    set (tr := substring 0 (Z.to_nat maxLength) text).
    assert (Htr : String.length tr = Z.to_nat maxLength)
      by (apply substring_length; lia).
    unfold lastIndexOf_space.
    destruct (last_space_range tr 0 (-1)) as [E|E].
    + rewrite E. destruct (Z.ltb_spec (maxLength - 10) (-1)) as [C|C].
      * unfold js_slice. rewrite Htr. cbn [Z.ltb Z.compare].
        exists (Z.to_nat (maxLength - 1)).
        destruct (Z.eqb_spec maxLength 0) as [Z0|Z0].
        -- subst maxLength. split; [lia|]. unfold tr; destruct text; reflexivity.
        -- split; [lia|]. f_equal. unfold tr.
           transitivity (substring 0 (Z.to_nat (maxLength - 1))
                           (substring 0 (Z.to_nat maxLength) text));
             [f_equal; lia | apply substring_substring; lia].
      * exists (Z.to_nat maxLength). split; [lia | reflexivity].
    + set (ls := last_space_from tr 0 (-1)) in *. rewrite Htr in E.
      destruct (Z.ltb_spec (maxLength - 10) ls) as [C|C].
      * rewrite (js_slice_prefix tr ls) by lia. rewrite Htr, Z.min_l by lia.
        exists (Z.to_nat ls). split; [lia|]. unfold tr. rewrite substring_substring by lia.
        reflexivity.
      * exists (Z.to_nat maxLength). split; [lia | reflexivity].
Qed.


Lemma truncateText_shape_witness :
  0 <= 20
  /\ exists k : nat, 20 - 10 < Z.of_nat k <= 20
     /\ truncateText "This is a very long description" 20
        = substring 0 k "This is a very long description" ++ "...".
Proof.
  split; [lia|].
  apply (proj2 (truncateText_shape "This is a very long description" 20 ltac:(lia))).
  vm_compute; reflexivity.
Defined.

Lemma last_space_none (s : string) (i acc : Z) :
  (forall c, In c (list_ascii_of_string s) -> c <> " "%char) ->
  last_space_from s i acc = acc.
Proof.
  revert i acc; induction s as [|c s IH]; intros i acc H; simpl; [reflexivity|].
  destruct (Ascii.eqb_spec c " "%char) as [E|E].
  - exfalso; apply (H c); [left; reflexivity | exact E].
  - apply IH. intros c' Hc; apply H; right; exact Hc.
Qed.

(** X12: when the first [maxLength] characters of a longer text hold no
    space, [truncateText] keeps [maxLength - 1] of them for
    [1 <= maxLength <= 8] and all [maxLength] of them for larger values,
    then appends '...'. *)
Theorem truncateText_no_space (text : string) (maxLength : Z)
  (H1 : 1 <= maxLength) (H2 : maxLength < Z.of_nat (String.length text))
  (Hns : forall c, In c (list_ascii_of_string (substring 0 (Z.to_nat maxLength) text)) ->
                   c <> " "%char) :
  truncateText text maxLength
  = substring 0 (Z.to_nat (if maxLength <=? 8 then maxLength - 1 else maxLength)) text
    ++ "...".
Proof.
  unfold truncateText. rewrite (proj2 (Z.leb_gt _ _) H2).
  rewrite (js_slice_prefix text maxLength) by lia. rewrite Z.min_l by lia.
  unfold lastIndexOf_space. rewrite (last_space_none _ 0 (-1) Hns).
  assert (Htr : String.length (substring 0 (Z.to_nat maxLength) text) = Z.to_nat maxLength)
    by (apply substring_length; lia).
  destruct (Z.leb_spec maxLength 8) as [C|C].
  - rewrite (proj2 (Z.ltb_lt _ _)) by lia. f_equal.
    unfold js_slice. rewrite Htr. cbn [Z.ltb Z.compare].
    transitivity (substring 0 (Z.to_nat (maxLength - 1))
                    (substring 0 (Z.to_nat maxLength) text));
      [f_equal; lia | apply substring_substring; lia].
  - rewrite (proj2 (Z.ltb_ge _ _)) by lia. reflexivity.
Qed.

Lemma truncateText_no_space_witness :
  truncateText "abcdefgh" 5 = substring 0 4 "abcdefgh" ++ "...".
Proof.
  exact (truncateText_no_space "abcdefgh" 5 ltac:(lia) ltac:(simpl; lia)
           ltac:(simpl; intros c Hc; intuition (subst; discriminate))).
Defined.

End HelpersExtrasFacts.

(** ** [formatImpactCategory] *)

Module FormatFacts.
Import HelpersExtras TextReadings.

Lemma js_join_cons_string (x : ascii) (w : string) (l : list string) :
  ValidationExtras.js_join " " (String x w :: l) = String x (ValidationExtras.js_join " " (w :: l)).
Proof. destruct l; reflexivity. Qed.

Lemma split_char_nonnil (s : string) : split_char "-"%char s <> [].
Proof.
  induction s as [|c r IH]; simpl; [discriminate|].
  destruct (Ascii.eqb c "-"%char); [discriminate|].
  destruct (split_char "-"%char r); discriminate.
Qed.

Lemma join_words (b : bool) (s : string) :
  ValidationExtras.js_join " "
    (match split_char "-"%char s with
     | w :: ws => (if b then cap_word w else w) :: map cap_word ws
     | [] => []
     end) = title_case b s.
Proof.
  revert b; induction s as [|c r IH]; intros b; [destruct b; reflexivity|].
  cbn [split_char title_case].
  destruct (Ascii.eqb c "-"%char).
  - pose proof (IH true) as H. destruct (split_char "-"%char r) as [|w ws] eqn:E;
      [exfalso; exact (split_char_nonnil r E)|].
    destruct b; cbn [cap_word map]; rewrite <- H; reflexivity.
  - pose proof (IH false) as H. destruct (split_char "-"%char r) as [|w ws] eqn:E;
      [exfalso; exact (split_char_nonnil r E)|].
    destruct b; cbn [cap_word]; rewrite js_join_cons_string, <- H; reflexivity.
Qed.

Lemma split_char_words (s w : string) :
  In w (split_char "-"%char s) ->
  w = EmptyString \/ exists c r, w = String c r /\ In c (list_ascii_of_string s).
Proof.
  revert w; induction s as [|c r IH]; intros w H; simpl in H.
  - destruct H as [<-|[]]; left; reflexivity.
  - destruct (Ascii.eqb c "-"%char).
    + destruct H as [<-|H]; [left; reflexivity|].
      destruct (IH w H) as [E|[c' [r' [E Hc]]]]; [left; exact E|].
      right; exists c', r'; split; [exact E | right; exact Hc].
    + destruct (split_char "-"%char r) as [|w0 ws] eqn:Es.
      * destruct H as [<-|[]]; right; exists c, EmptyString; split; [reflexivity | left; reflexivity].
      * destruct H as [<-|H].
        -- right; exists c, w0; split; [reflexivity | left; reflexivity].
        -- destruct (IH w (or_intror H)) as [E|[c' [r' [E Hc]]]]; [left; exact E|].
           right; exists c', r'; split; [exact E | right; exact Hc].
Qed.

Lemma upper_char_ascii (c : ascii) :
  (nat_of_ascii c < 128)%nat ->
  ValidationExtras.upper_char c = Some (String (upper_ascii c) EmptyString).
Proof.
  intros H. unfold ValidationExtras.upper_char, upper_ascii.
  destruct ((97 <=? nat_of_ascii c) && (nat_of_ascii c <=? 122))%nat eqn:E; cbn [orb].
  - reflexivity.
  - replace ((224 <=? nat_of_ascii c)%nat) with false by (symmetry; apply Nat.leb_gt; lia).
    cbn [andb].
    replace ((nat_of_ascii c =? 223)%nat) with false by (symmetry; apply Nat.eqb_neq; lia).
    replace ((nat_of_ascii c =? 181)%nat) with false by (symmetry; apply Nat.eqb_neq; lia).
    replace ((nat_of_ascii c =? 255)%nat) with false by (symmetry; apply Nat.eqb_neq; lia).
    reflexivity.
Qed.

Lemma all_some_capitalize (ws : list string) :
  (forall w, In w ws -> w = EmptyString \/ exists c r, w = String c r /\ (nat_of_ascii c < 128)%nat) ->
  all_some (map capitalize ws) = Some (map cap_word ws).
Proof.
  induction ws as [|w ws IH]; intros H; [reflexivity|]. cbn [map all_some].
  destruct (H w (or_introl eq_refl)) as [->|[c [r [-> Hc]]]].
  - simpl. rewrite IH by (intros w' Hw; apply H; right; exact Hw). reflexivity.
  - unfold capitalize at 1. rewrite upper_char_ascii by exact Hc. simpl.
    rewrite IH by (intros w' Hw; apply H; right; exact Hw). reflexivity.
Qed.

(** X13: on an ASCII string, [formatImpactCategory] turns each hyphen
    into a space and upper-cases the first character of each word,
    leaving every other character as it is. *)
Theorem formatImpactCategory_ascii (category : string)
  (H : forall c, In c (list_ascii_of_string category) -> (nat_of_ascii c < 128)%nat) :
  formatImpactCategory category = Some (title_case true category).
Proof.
  unfold formatImpactCategory.
  rewrite all_some_capitalize.
  - cbn [option_map]. f_equal. rewrite <- (join_words true category).
    destruct (split_char "-"%char category) as [|w ws] eqn:E;
      [exfalso; exact (split_char_nonnil _ E) | reflexivity].
  - intros w Hw. destruct (split_char_words category w Hw) as [E|[c [r [E Hc]]]];
      [left; exact E | right; exists c, r; split; [exact E | apply H; exact Hc]].
Qed.

Lemma formatImpactCategory_ascii_witness :
  formatImpactCategory "sustainable-agriculture" = Some "Sustainable Agriculture".
Proof.
  rewrite (formatImpactCategory_ascii "sustainable-agriculture"
             ltac:(vm_compute; intros c Hc; intuition (subst; vm_compute; lia))).
  vm_compute; reflexivity.
Defined.

End FormatFacts.

(** ** [debounce] *)

Module DebounceFacts.
Import HelpersExtras StoreReadings.
Open Scope Z_scope.
Local Open Scope list_scope.

Section WithArgs.
Context {A : Type}.

Lemma timer_timeout_small (delay : Z) :
  0 <= delay < 2 ^ 31 -> timer_timeout delay = delay.
Proof.
  intros H; unfold timer_timeout.
  rewrite Z.mod_small by lia. lia.
Qed.

Lemma debounce_last (delay : Z) (p : option (Z * A)) (calls : list (Z * A)) (t : Z) (a : A) :
  exists fired, debounce_run delay p (calls ++ [(t, a)]) = fired ++ [(t + timer_timeout delay, a)].
Proof.
  revert p; induction calls as [|[t1 a1] rest IH]; intros p; simpl.
  - eexists; reflexivity.
  - destruct (IH (Some (t1 + timer_timeout delay, a1))) as [f E]. rewrite E.
    eexists; rewrite app_assoc; reflexivity.
Qed.

Lemma debounce_from_calls (delay : Z) (p : option (Z * A)) (calls : list (Z * A)) (inv : Z * A) :
  In inv (debounce_run delay p calls) ->
  p = Some inv \/ In inv (map (fun c => (fst c + timer_timeout delay, snd c)) calls).
Proof.
  revert p; induction calls as [|[t1 a1] rest IH]; intros p H; simpl in H.
  - destruct p as [q|]; [destruct H as [<-|[]]; left; reflexivity | destruct H].
  - apply in_app_iff in H as [H|H].
    + destruct p as [[d x]|]; [|destruct H]. destruct (d <=? t1); [|destruct H].
      destruct H as [<-|[]]; left; reflexivity.
    + destruct (IH _ H) as [E|E].
      * right; left. injection E as <-; reflexivity.
      * right; right; exact E.
Qed.

Lemma debounce_burst_aux (delay : Z) (calls : list (Z * A)) (t : Z) (a : A) :
  forall p, burst delay (calls ++ [(t, a)]) = true ->
  (forall d x, p = Some (d, x) -> fst (hd (t, a) (calls ++ [(t, a)])) < d) ->
  debounce_run delay p (calls ++ [(t, a)]) = [(t + timer_timeout delay, a)].
Proof.
  induction calls as [|[t1 a1] rest IH]; intros p Hb Hp; simpl.
  - destruct p as [[d x]|]; [|reflexivity].
    specialize (Hp d x eq_refl); simpl in Hp.
    destruct (Z.leb_spec d t); [lia | reflexivity].
  - assert (F : match p with
                | Some (d, a') => if d <=? t1 then [(d, a')] else []
                | None => []
                end = []).
    { destruct p as [[d x]|]; [|reflexivity].
      specialize (Hp d x eq_refl); simpl in Hp.
      destruct (Z.leb_spec d t1); [lia | reflexivity]. }
    rewrite F; simpl. apply IH.
    + destruct rest as [|[t2 a2] rest']; simpl in Hb |- *;
        apply andb_true_iff in Hb as [_ Hb]; exact Hb.
    + intros d x E; injection E as <- <-.
      destruct rest as [|[t2 a2] rest']; simpl in Hb |- *;
        apply andb_true_iff in Hb as [Hb _]; apply andb_true_iff in Hb as [_ Hb]; lia.
Qed.

End WithArgs.

(** X14: a function wrapped by [debounce] is always run last with the
    arguments of the last call, [timer_timeout delay] after it (that is,
    [delay] after it for [0 <= delay < 2^31]); every run uses the
    arguments of some call, [timer_timeout delay] after that call; and it
    runs at most once per call. *)
Theorem debounce_last_call {A : Type} (delay : Z) (calls : list (Z * A)) (t : Z) (a : A) :
  (exists fired, debounce_run delay None (calls ++ [(t, a)])
                 = fired ++ [(t + timer_timeout delay, a)])
  /\ (forall inv, In inv (debounce_run delay None calls) ->
        In inv (map (fun c => (fst c + timer_timeout delay, snd c)) calls))
  /\ (List.length (debounce_run delay None calls) <= List.length calls)%nat
  /\ (0 <= delay < 2 ^ 31 -> timer_timeout delay = delay).
Proof.
  split; [apply debounce_last|split; [|split]].
  - intros inv H. destruct (debounce_from_calls delay None calls inv H) as [E|E];
      [discriminate | exact E].
  - assert (G : forall (p : option (Z * A)) l,
               (List.length (debounce_run delay p l)
                <= List.length l + (match p with Some _ => 1 | None => 0 end))%nat).
    { intros p l; revert p; induction l as [|[t1 a1] rest IH]; intros p; simpl.
      - destruct p; simpl; lia.
      - rewrite length_app. specialize (IH (Some (t1 + timer_timeout delay, a1))).
        destruct p as [[d x]|]; [destruct (d <=? t1)|]; simpl in *; lia. }
    specialize (G None calls); simpl in G; lia.
  - apply timer_timeout_small.
Qed.

(** X15: for a burst of calls, each made before the previous one's
    timer is due (after [timer_timeout delay]), the debounced function
    runs exactly once, with the last call's arguments, [timer_timeout
    delay] after the last call. *)
Theorem debounce_burst {A : Type} (delay : Z) (calls : list (Z * A)) (t : Z) (a : A)
  (H : burst delay (calls ++ [(t, a)]) = true) :
  debounce_run delay None (calls ++ [(t, a)]) = [(t + timer_timeout delay, a)].
Proof. apply debounce_burst_aux; [exact H | intros d x E; discriminate]. Qed.

Lemma debounce_burst_witness :
  debounce_run 300 None ([(0, "a"); (100, "ab")] ++ [(250, "abc")]) = [(550, "abc")].
Proof. exact (debounce_burst 300 [(0, "a"); (100, "ab")] 250 "abc" eq_refl). Defined.

End DebounceFacts.

(** ** The filters store *)

Module FiltersStoreFacts.
Import ProjectsStore FiltersStore.
Open Scope Z_scope.
Local Open Scope list_scope.

Lemma fire_due_value (t : Z) (s : FState) :
  (forall d v, pending s = Some (d, v) -> v = value s) -> value (fire_due t s) = value s.
Proof.
  intros H; unfold fire_due. destruct (pending s) as [[d v]|] eqn:E; [|reflexivity].
  destruct (d <=? t); [simpl; exact (H d v eq_refl) | reflexivity].
Qed.

Lemma fire_due_pending (t : Z) (s : FState) :
  (forall d v, pending s = Some (d, v) -> v = value s) ->
  forall d v, pending (fire_due t s) = Some (d, v) -> v = value (fire_due t s).
Proof.
  intros H d v. unfold fire_due. destruct (pending s) as [[d' v']|] eqn:E; [|rewrite E; apply H].
  destruct (d' <=? t); simpl; [discriminate | rewrite E; apply H].
Qed.

Lemma new_state_some (op : FiltersOp) (st : FilterState) :
  op <> Reset -> exists ns, new_state op st = Some ns.
Proof. destruct op; simpl; eauto; intros H; contradiction H; reflexivity. Qed.

(** X16: as long as [reset] is not called, the filters store's value is
    the result of applying each update at once, and the debounced [set]
    that follows leaves it unchanged. *)
Theorem filters_no_reset (ops : list (Z * FiltersOp)) (s : FState)
  (Hops : Forall (fun c => snd c <> Reset) ops)
  (Hs : forall d v, pending s = Some (d, v) -> v = value s) :
  value (run ops s)
  = fold_left (fun st c => match new_state (snd c) st with Some ns => ns | None => st end)
              ops (value s)
  /\ settle (run ops s) = value (run ops s).
Proof.
  revert s Hs; induction ops as [|[t op] rest IH]; intros s Hs; simpl.
  - split; [reflexivity|]. unfold settle. destruct (pending s) as [[d v]|] eqn:E; [|reflexivity].
    exact (Hs d v eq_refl).
  - inversion Hops as [|? ? Hop Hrest]; subst. simpl in Hop.
    destruct (new_state_some op (value s) Hop) as [ns Ens].
    assert (Hst : step t op s = mkFState ns (Some (t + debounce_delay, ns))).
    { unfold step. rewrite (fire_due_value t s Hs), Ens. reflexivity. }
    rewrite Hst, Ens.
    apply (IH Hrest). intros d v E. injection E as _ <-. reflexivity.
Qed.

Lemma filters_no_reset_witness :
  value (run [(0, SetRegion (Some "north-america")); (50, SetImpactCategory (Some "conservation"))]
             (mkFState initialState None))
  = mkFilterState (Some "north-america") (Some "conservation").
Proof.
  destruct (filters_no_reset
              [(0, SetRegion (Some "north-america")); (50, SetImpactCategory (Some "conservation"))]
              (mkFState initialState None)
              ltac:(repeat constructor; discriminate)
              ltac:(intros d v E; discriminate E)) as [E _].
  rewrite E; reflexivity.
Defined.

(** X17: a [reset] of the filters store less than 100 ms after an update
    is undone: the value is the initial state right after the reset, but
    the pending debounced [set] restores the update's state when its
    timer fires. *)
Theorem filters_reset_reverted (s : FState) (t t' : Z) (op : FiltersOp) (ns : FilterState)
  (Hs : pending s = None) (Hop : new_state op (value s) = Some ns)
  (Ht : t <= t' < t + debounce_delay) :
  let s1 := run [(t, op); (t', Reset)] s in
  value s1 = initialState
  /\ value (fire_due (t + debounce_delay) s1) = ns
  /\ settle s1 = ns.
Proof.
  assert (E1 : step t op s = mkFState ns (Some (t + debounce_delay, ns)))
    by (unfold step, fire_due; rewrite Hs, Hop; reflexivity).
  cbv zeta. simpl run. rewrite E1. unfold step, fire_due; cbn [pending value].
  destruct (Z.leb_spec (t + debounce_delay) t') as [C|C]; [lia|]. simpl.
  rewrite Z.leb_refl. split; [reflexivity | split; reflexivity].
Qed.

Lemma filters_reset_reverted_witness :
  value (fire_due 100 (run [(0, SetRegion (Some "north-america")); (30, Reset)]
                         (mkFState initialState None)))
  = mkFilterState (Some "north-america") None.
Proof.
  exact (proj1 (proj2 (filters_reset_reverted (mkFState initialState None) 0 30
                         (SetRegion (Some "north-america"))
                         (mkFilterState (Some "north-america") None)
                         eq_refl eq_refl ltac:(unfold debounce_delay; lia)))).
Defined.

End FiltersStoreFacts.

(** ** The error-handling wrappers *)

Module ErrorsExtrasFacts.
Import Errors ErrorsExtras.

Lemma handler_message (now : Z) (context : option string) (t : Thrown) :
  getUserFriendlyMessage (handleError now t context)
  = match t with
    | TError e =>
        match err_kind e with
        | KProjectDataError | KMapError => "Something went wrong. Please try again in a moment."
        | _ => "There was an issue processing your request. Please try again."
        end
    | TNonError _ => "There was an issue processing your request. Please try again."
    end.
Proof. destruct t as [[k m c]|v]; [destruct k|]; reflexivity. Qed.

(** X18: [withSyncErrorHandling] and [withErrorHandling] pass a result
    through, and turn any thrown value into a plain [Error] with the HIGH
    message for a [ProjectDataError] or [MapError] and the MEDIUM message
    for anything else; the CRITICAL and LOW messages are never used. *)
Theorem error_wrappers {R : Type} (now : Z) (context : option string) (call : Completion R) :
  let msg t := match t with
               | TError e =>
                   match err_kind e with
                   | KProjectDataError | KMapError =>
                       "Something went wrong. Please try again in a moment."
                   | _ => "There was an issue processing your request. Please try again."
                   end
               | TNonError _ => "There was an issue processing your request. Please try again."
               end in
  let expected := match call with
                  | Normal r => Normal r
                  | Abrupt t => Abrupt (TError (mkJsError KOtherError (msg t) None))
                  end in
  withSyncErrorHandling now context call = expected
  /\ withErrorHandling now context call = expected.
Proof.
  cbv zeta. destruct call as [r|t]; [split; reflexivity|].
  unfold withSyncErrorHandling, withErrorHandling. rewrite handler_message. split; reflexivity.
Qed.

(** X19: wrapping a wrapped function again always turns a failure into
    the MEDIUM message, also for a [ProjectDataError] or [MapError], with
    either wrapper. *)
Theorem error_wrappers_nested {R : Type} (now1 now2 : Z) (c1 c2 : option string)
  (call : Completion R) :
  withSyncErrorHandling now2 c2 (withSyncErrorHandling now1 c1 call)
  = match call with
    | Normal r => Normal r
    | Abrupt _ =>
        Abrupt (TError (mkJsError KOtherError
                  "There was an issue processing your request. Please try again." None))
    end
  /\ withErrorHandling now2 c2 (withErrorHandling now1 c1 call)
     = withSyncErrorHandling now2 c2 (withSyncErrorHandling now1 c1 call).
Proof. destruct call as [r|t]; split; reflexivity. Qed.

End ErrorsExtrasFacts.

(** ** All of the map store *)

Module MapStoreExtrasFacts.
Import MapStore MapStoreExtras StoreReadings.

(** X20: after any sequence of map-store operations, each field holds the
    value written by the last operation that writes it ([setInstance]
    clears the error, [setError] clears the loaded flag, [reset] writes
    all four), or its earlier value if none does. *)
Theorem map_store_last_write {M : Type} (ops : list (MapOp M)) (st : MapState M) :
  run_ops ops st
  = mkMapState M (last_write writes_instance ops (instance st))
                 (last_write writes_isLoaded ops (isLoaded st))
                 (last_write writes_error ops (error st))
                 (last_write writes_isInteracting ops (isInteracting st)).
Proof.
  unfold run_ops, last_write. revert st; induction ops as [|op ops IH]; intros st; simpl.
  - destruct st; reflexivity.
  - rewrite IH. destruct op; reflexivity.
Qed.

End MapStoreExtrasFacts.

(** ** The selected-project store *)

Module SelectedProjectFacts.
Import SelectedProject.

(** X21: [selectProject] opens the modal on the project and remembers the
    focused element; closing then returns the store to its initial state
    and restores focus to that element, and closing a closed modal
    schedules no focus change. *)
Theorem select_then_close {E : Type} (activeElement : option E) (project : Project)
  (state : SelectedProjectState E) :
  selectedProject (selectProject activeElement project state) = Some project
  /\ isOpen (selectProject activeElement project state) = true
  /\ closeModal (selectProject activeElement project state) = (initialState, activeElement)
  /\ closeModal (fst (closeModal state)) = (initialState, None).
Proof. repeat split; destruct activeElement; reflexivity. Qed.

End SelectedProjectFacts.

(** ** Marker elements *)

Module MarkerElementFacts.
Import MarkerElement.

(** X22: [getMarkerColor] gives each of the four valid categories its
    own non-grey color, gives any other category the grey default,
    except the names of [Object.prototype] members, for which it returns
    the inherited member instead of a color. *)
Theorem getMarkerColor_cases (impactCategory : string) :
  (In impactCategory Validation.VALID_IMPACT_CATEGORIES ->
     exists c, getMarkerColor impactCategory = ColorString c /\ c <> "#6B7280")
  /\ (In impactCategory object_prototype_keys ->
        getMarkerColor impactCategory = InheritedMember impactCategory)
  /\ (~ In impactCategory Validation.VALID_IMPACT_CATEGORIES ->
      ~ In impactCategory object_prototype_keys ->
        getMarkerColor impactCategory = ColorString "#6B7280")
  /\ NoDup (map getMarkerColor Validation.VALID_IMPACT_CATEGORIES).
Proof.
  split; [|split; [|split]].
  - simpl; intros H; repeat destruct H as [<-|H]; try destruct H;
      (eexists; split; [reflexivity | discriminate]).
  - simpl; intros H; repeat destruct H as [<-|H]; try destruct H; reflexivity.
  - intros H1 H2. unfold getMarkerColor.
    destruct (find (fun kv => String.eqb (fst kv) impactCategory) colors) as [[k v]|] eqn:E.
    + exfalso. apply find_some in E as [Hin Hk]. apply String.eqb_eq in Hk; simpl in Hk; subst k.
      apply H1. simpl in Hin |- *.
      repeat destruct Hin as [Hin|Hin]; try injection Hin as <- _; tauto.
    + destruct (existsb (String.eqb impactCategory) object_prototype_keys) eqn:Ex;
        [|reflexivity].
      exfalso. apply existsb_exists in Ex as [x [Hx Ex]]. apply String.eqb_eq in Ex; subst x.
      exact (H2 Hx).
  - simpl. repeat constructor; simpl; intuition discriminate.
Qed.

Lemma not_in_string (c : ascii) (s : string) : ~ In c (list_ascii_of_string s) ->
  forall c', In c' (list_ascii_of_string s) -> c' <> c.
Proof. intros H c' Hc E; subst; exact (H Hc). Qed.

Lemma remove_chars_spec (bad : list ascii) (s : string) (c : ascii) :
  In c (list_ascii_of_string (remove_chars bad s)) ->
  In c (list_ascii_of_string s) /\ ~ In c bad.
Proof.
  induction s as [|c0 r IH]; simpl; [tauto|].
  destruct (existsb (Ascii.eqb c0) bad) eqn:E.
  - intros H; destruct (IH H); tauto.
  - simpl. intros [<-|H].
    + split; [left; reflexivity|]. intros Hin.
      assert (existsb (Ascii.eqb c0) bad = true)
        by (apply existsb_exists; exists c0; split; [exact Hin | apply Ascii.eqb_refl]).
      congruence.
    + destruct (IH H); tauto.
Qed.

Lemma replace_char_absent (c : ascii) (rep s : string) :
  ~ In c (list_ascii_of_string s) -> replace_char c rep s = s.
Proof.
  induction s as [|c0 r IH]; simpl; [reflexivity|]. intros H.
  destruct (Ascii.eqb_spec c0 c) as [E|E]; [subst; exfalso; apply H; left; reflexivity|].
  rewrite IH by tauto; reflexivity.
Qed.

Lemma list_ascii_app (s1 s2 : string) :
  list_ascii_of_string (s1 ++ s2) = (list_ascii_of_string s1 ++ list_ascii_of_string s2)%list.
Proof. induction s1 as [|c r IH]; simpl; [reflexivity | rewrite IH; reflexivity]. Qed.

Lemma replace_char_in (c : ascii) (rep s : string) (x : ascii) :
  In x (list_ascii_of_string (replace_char c rep s)) ->
  In x (list_ascii_of_string rep) \/ (In x (list_ascii_of_string s) /\ x <> c).
Proof.
  induction s as [|c0 r IH]; simpl; [tauto|].
  destruct (Ascii.eqb_spec c0 c) as [E|E].
  - rewrite list_ascii_app, in_app_iff. intros [H|H]; [tauto|]. destruct (IH H); tauto.
  - simpl. intros [<-|H]; [right; split; [left; reflexivity | exact E]|]. destruct (IH H); tauto.
Qed.

Lemma safeTitle_chars (title : string) (x : ascii) :
  In x (list_ascii_of_string (safeTitle title)) ->
  x <> "034"%char /\ x <> "'"%char /\ x <> "<"%char /\ x <> ">"%char.
Proof.
  unfold safeTitle. destruct (truthy (JStr title)).
  - intros H. apply remove_chars_spec in H as [_ H]. simpl in H. intuition (subst; tauto).
  - simpl. intros H; repeat destruct H as [<-|H]; try destruct H; repeat split; discriminate.
Qed.

(** X23: the marker tooltip text [escapedTitle] and the aria label never
    contain a double quote, a single quote, '<' or '>'; the tooltip's
    only escaping is that of '&'. *)
Theorem escapedTitle_safe (title : string) :
  escapedTitle (safeTitle title) = replace_char "&"%char "&amp;" (safeTitle title)
  /\ (forall x, In x (list_ascii_of_string (escapedTitle (safeTitle title))) ->
        x <> "034"%char /\ x <> "'"%char /\ x <> "<"%char /\ x <> ">"%char)
  /\ (forall x, In x (list_ascii_of_string (ariaLabel title)) ->
        x <> "034"%char /\ x <> "'"%char /\ x <> "<"%char /\ x <> ">"%char).
Proof.
  assert (Hs := safeTitle_chars title).
  assert (Amp : forall x, In x (list_ascii_of_string (replace_char "&"%char "&amp;" (safeTitle title))) ->
                x <> "034"%char /\ x <> "'"%char /\ x <> "<"%char /\ x <> ">"%char).
  { intros x H. apply replace_char_in in H as [H|[H _]]; [|exact (Hs x H)].
    simpl in H. intuition (subst; discriminate). }
  assert (E : escapedTitle (safeTitle title) = replace_char "&"%char "&amp;" (safeTitle title)).
  { unfold escapedTitle. rewrite (replace_char_absent "<"%char).
    - rewrite (replace_char_absent ">"%char); [reflexivity|].
      intros H; destruct (Amp _ H) as [_ [_ [_ C]]]; exact (C eq_refl).
    - intros H; destruct (Amp _ H) as [_ [_ [C _]]]; exact (C eq_refl). }
  split; [exact E | split].
  - rewrite E; exact Amp.
  - intros x H. unfold ariaLabel in H. rewrite list_ascii_app, in_app_iff in H.
    destruct H as [H|H]; [simpl in H; intuition (subst; discriminate) | exact (Hs x H)].
Qed.

End MarkerElementFacts.

(** ** The earlier validation module *)

Module LegacyValidationFacts.
Import Validation.

(** X24: the errors the earlier [validateProject] of
    src/unnamed/part_014 reports are the first errors the current one
    reports, so a project the current one accepts is accepted by the
    earlier one. *)
Theorem legacy_errors_prefix (now : Z) (project : jsval) :
  (exists rest, errors (validateProject now project)
                = (errors (LegacyValidation.validateProject project) ++ rest)%list)
  /\ (isValid (validateProject now project) = true ->
      isValid (LegacyValidation.validateProject project) = true).
Proof.
  assert (P : exists rest, errors (validateProject now project)
                           = (errors (LegacyValidation.validateProject project) ++ rest)%list).
  { unfold validateProject, LegacyValidation.validateProject.
    destruct (negb (truthy project) || negb (is_object project)).
    - exists []; reflexivity.
    - cbn [errors]. eexists. rewrite <- !app_assoc. reflexivity. }
  split; [exact P|].
  intros H. apply ValidationFacts.validateProject_valid_nil in H.
  destruct P as [rest E]. rewrite H in E. symmetry in E. apply app_eq_nil in E as [E _].
  unfold LegacyValidation.validateProject in *.
  destruct (negb (truthy project) || negb (is_object project)); [discriminate|].
  cbn [errors isValid] in *. rewrite E. reflexivity.
Qed.

End LegacyValidationFacts.
